(** * Kursovaya: the query engine of the car catalogue (app.py)

    A shallow embedding of the filter, search, recommendation and
    favourites logic of [app.py], and the properties its specification
    states about them.

    Conventions of the embedding.
    - A Python [str] is a list of characters ([list ascii]); the text is
      taken to be ASCII, so [lower] acts on the letters A-Z and the white
      space of [strip]/[split]/[int] is the ASCII white space of Python.
    - A pandas numeric cell (float64) is [option Q]: [None] is NaN, [Some q]
      a finite value.  Comparisons with NaN are false, arithmetic on NaN is
      NaN.  Rounding to binary64 is not modelled: sums, differences and
      products are exact, and an integer bound is compared with a cell as
      the number it is.  The properties below that depend on such a value
      are stated for integers of magnitude up to 2^53, which binary64
      holds exactly; no property depends on the value of a product.
    - A pandas object cell is [option str]: [None] is a missing value.
    - A DataFrame is the list of its rows, in index order. *)

From Stdlib Require Import List Ascii String ZArith QArith Bool Lia.
From Stdlib Require Import Permutation Sorted.
From Stdlib Require Import DecimalString DecimalFacts DecimalPos DecimalZ.
Import ListNotations.

Local Open Scope Z_scope.

(** ** Python strings *)

Module Py.

Definition str := list ascii.

(** String literals of the development. *)
Definition lit (s : string) : str := list_ascii_of_string s.

Definition code (c : ascii) : N := N_of_ascii c.

(** [c.isspace()] on ASCII: TAB..CR, FS..US and the blank. *)
Definition isspace (c : ascii) : bool :=
  ((9 <=? code c) && (code c <=? 13) || (28 <=? code c) && (code c <=? 32))%N.

Definition isdigit (c : ascii) : bool :=
  ((48 <=? code c) && (code c <=? 57))%N.

Definition digit_value (c : ascii) : Z := Z.of_N (code c) - 48.

Definition isupper (c : ascii) : bool :=
  ((65 <=? code c) && (code c <=? 90))%N.

Definition lower_char (c : ascii) : ascii :=
  if isupper c then ascii_of_N (code c + 32) else c.

(** [s.lower()] *)
Definition lower (s : str) : str := map lower_char s.

Fixpoint lstrip (s : str) : str :=
  match s with
  | c :: s' => if isspace c then lstrip s' else s
  | [] => []
  end.

Definition rstrip (s : str) : str := rev (lstrip (rev s)).

(** [s.strip()] *)
Definition strip (s : str) : str := rstrip (lstrip s).

(** [s.split()]: the maximal runs of characters that are not white space.
    [cur] is the run being read, most recent character first. *)
Fixpoint split_from (cur : str) (s : str) : list str :=
  match s with
  | [] => match cur with [] => [] | _ => [rev cur] end
  | c :: s' =>
      if isspace c
      then match cur with
           | [] => split_from [] s'
           | _ => rev cur :: split_from [] s'
           end
      else split_from (c :: cur) s'
  end.

Definition split (s : str) : list str := split_from [] s.

(** [sep.join(parts)] *)
Fixpoint join (sep : str) (parts : list str) : str :=
  match parts with
  | [] => []
  | [p] => p
  | p :: rest => p ++ sep ++ join sep rest
  end.

Definition ascii_eqb (a b : ascii) : bool := Ascii.eqb a b.

Fixpoint str_eqb (a b : str) : bool :=
  match a, b with
  | [], [] => true
  | x :: a', y :: b' => ascii_eqb x y && str_eqb a' b'
  | _, _ => false
  end.

Fixpoint startswith (s prefix : str) {struct prefix} : bool :=
  match prefix, s with
  | [], _ => true
  | p :: prefix', c :: s' => ascii_eqb p c && startswith s' prefix'
  | _ :: _, [] => false
  end.

(** [needle in hay] *)
Fixpoint contains (hay needle : str) : bool :=
  startswith hay needle ||
  match hay with
  | [] => false
  | _ :: hay' => contains hay' needle
  end.

(** Truth value of a string: [bool(s)]. *)
Definition truthy (s : str) : bool :=
  match s with [] => false | _ => true end.

(** Truth value of an optional string (a [str] or Python's [None]). *)
Definition truthy_opt (s : option str) : bool :=
  match s with Some s => truthy s | None => false end.

(** *** Exceptions *)

Inductive exn := ValueError | ReError | AttributeError | RuntimeError.

(** The outcome of a call: a value, an exception, or [Unmodelled] when the
    run leaves the part of the library modelled here (see [Re.compile]). *)
Inductive result (A : Type) :=
| Return (a : A)
| Raise (e : exn)
| Unmodelled.
Arguments Return {A} a.
Arguments Raise {A} e.
Arguments Unmodelled {A}.

Definition bind {A B} (m : result A) (k : A -> result B) : result B :=
  match m with
  | Return a => k a
  | Raise e => Raise e
  | Unmodelled => Unmodelled
  end.

(** [try: body  except Exception: handler] *)
Definition try_except {A} (body : result A) (handler : result A) : result A :=
  match body with
  | Return a => Return a
  | Raise _ => handler
  | Unmodelled => Unmodelled
  end.

(** *** [int(s)] for a string argument, base ten

    After white space is stripped the text must be an optional sign followed
    by decimal digits, where single underscores may separate digits;
    anything else raises [ValueError].  So does a text with more digits
    than [max_str_digits], the limit the interpreter sets on conversions
    between text and integers.  [seen] says that the previous character was
    a digit. *)
Fixpoint digits (acc : Z) (seen : bool) (s : str) : option Z :=
  match s with
  | [] => if seen then Some acc else None
  | c :: s' =>
      if isdigit c then digits (10 * acc + digit_value c) true s'
      else if ascii_eqb c "_"%char && seen then digits acc false s'
      else None
  end.

Definition signed_digits (s : str) : option Z :=
  match s with
  | c :: s' =>
      if ascii_eqb c "-"%char then option_map Z.opp (digits 0 false s')
      else if ascii_eqb c "+"%char then digits 0 false s'
      else digits 0 false s
  | [] => None
  end.

(** [sys.int_info.default_max_str_digits] *)
Definition max_str_digits : Z := 4300.

Definition count_digits (s : str) : Z :=
  Z.of_nat (List.length (filter isdigit s)).

Definition int (s : str) : result Z :=
  match signed_digits (strip s) with
  | Some n =>
      if max_str_digits <? count_digits (strip s) then Raise ValueError
      else Return n
  | None => Raise ValueError
  end.

End Py.

Import Py.

Notation "x <- m ;; k" := (bind m (fun x => k))
  (at level 61, m at next level, right associativity).

(** ** [_to_int] (app.py, lines 34-43) *)

Definition _to_int (x : option str) : result (option Z) :=
  try_except
    (match x with
     | None => Return None
     | Some x =>
         let x := strip x in
         if str_eqb x [] then Return None
         else bind (int x) (fun n => Return (Some n))
     end)
    (Return None).

(** ** Regular expressions: the fragment of Python's [re] used below

    [Series.str.contains(pat)] compiles [pat] with [re.compile] and keeps
    the rows where [search] finds a match.  The fragment modelled: ordinary
    characters, which match themselves, and the dot, which matches any
    character but a newline.  A pattern that starts with a repetition
    operator is rejected by [re.compile] ("nothing to repeat").  Every other
    use of a special character is left [Unmodelled]. *)

Module Re.

Inductive atom :=
| Lit (c : ascii)
| Dot.

Definition special (c : ascii) : bool :=
  existsb (ascii_eqb c) (lit ".^$*+?{}[]\|()").

Definition repetition (c : ascii) : bool :=
  existsb (ascii_eqb c) (lit "*+?").

Fixpoint atoms (pat : str) : result (list atom) :=
  match pat with
  | [] => Return []
  | c :: pat' =>
      if ascii_eqb c "."%char then p <- atoms pat' ;; Return (Dot :: p)
      else if special c then Unmodelled
      else p <- atoms pat' ;; Return (Lit c :: p)
  end.

(** [re.compile(pat)] *)
Definition compile (pat : str) : result (list atom) :=
  match pat with
  | c :: _ => if repetition c then Raise ReError else atoms pat
  | [] => atoms pat
  end.

Definition atom_matches (a : atom) (c : ascii) : bool :=
  match a with
  | Lit x => ascii_eqb x c
  | Dot => negb (ascii_eqb c "010"%char)
  end.

(** [p.match(s)]: a match that starts at the first character. *)
Fixpoint match_at (p : list atom) (s : str) {struct p} : bool :=
  match p, s with
  | [], _ => true
  | a :: p', c :: s' => atom_matches a c && match_at p' s'
  | _ :: _, [] => false
  end.

(** [p.search(s) is not None] *)
Fixpoint search (p : list atom) (s : str) : bool :=
  match_at p s ||
  match s with
  | [] => false
  | _ :: s' => search p s'
  end.

End Re.

(** ** The table

    One record of the table, with the columns the handlers read.  From here
    on [id] is the column of that name. *)

Record row := {
  id : Z;
  brand : option str;
  model : option str;
  body_type : option str;
  fuel_type : option str;
  drive_type : option str;
  transmission : option str;
  year : option Q;
  horsepower : option Q;
  price_usd : option Q
}.

Definition DataFrame := list row.

(** [frame[mask]]: the rows whose entry of the boolean mask is true. *)
Fixpoint boolean_index {A : Type} (frame : list A) (mask : list bool) : list A :=
  match frame, mask with
  | r :: frame', b :: mask' =>
      if b then r :: boolean_index frame' mask' else boolean_index frame' mask'
  | _, _ => []
  end.

(** [a & b] on boolean Series of one index. *)
Fixpoint series_and (a b : list bool) : list bool :=
  match a, b with
  | x :: a', y :: b' => (x && y) :: series_and a' b'
  | _, _ => []
  end.

(** [column.astype(str)] on an object cell: a missing value prints as nan. *)
Definition astype_str (cell : option str) : str :=
  match cell with
  | Some s => s
  | None => lit "nan"
  end.

(** [column == value] on an object cell: a missing value equals nothing. *)
Definition cell_eq (cell : option str) (value : str) : bool :=
  match cell with
  | Some s => str_eqb s value
  | None => false
  end.

(** [column == other] where [other] is itself a cell. *)
Definition cell_eq_cell (cell other : option str) : bool :=
  match other with
  | Some v => cell_eq cell v
  | None => false
  end.

(** An integer that float64 holds as it is: every integer of magnitude up
    to 2^53 does. *)
Definition exact_in_float64 (n : Z) : Prop := Z.abs n <= 2 ^ 53.

(** [column >= n] and [column <= n] on a numeric cell, [n] a Python int.
    pandas compares the cell with [n] made a float64; the comparison below
    is with [n] itself, which is the same for every [n] that is
    [exact_in_float64]. *)
Definition cell_ge (cell : option Q) (n : Z) : bool :=
  match cell with
  | Some v => Qle_bool (inject_Z n) v
  | None => false
  end.

Definition cell_le (cell : option Q) (n : Z) : bool :=
  match cell with
  | Some v => Qle_bool v (inject_Z n)
  | None => false
  end.

(** [Series.str.contains(pat, na=False)] on a Series of strings. *)
Definition str_contains (series : list str) (pat : str) : result (list bool) :=
  p <- Re.compile pat ;; Return (map (Re.search p) series).

(** ** [apply_filters] (app.py, lines 58-124)

    The keyword arguments of [apply_filters], each a string or [None]. *)

Module Args.
Record t := {
  q : option str;
  brand : option str;
  model : option str;
  body_type : option str;
  year_min : option str;
  year_max : option str;
  hp_min : option str;
  hp_max : option str;
  price_min : option str;
  price_max : option str;
  fuel_type : option str;
  drive_type : option str;
  transmission : option str
}.

(** The defaults of the signature: every argument [None]. *)
Definition default : t :=
  {| q := None; brand := None; model := None; body_type := None;
     year_min := None; year_max := None; hp_min := None; hp_max := None;
     price_min := None; price_max := None;
     fuel_type := None; drive_type := None; transmission := None |}.
End Args.

(** [str(q)] for the argument [q]; only used where [q] is a string. *)
Definition str_of (x : option str) : str :=
  match x with
  | Some s => s
  | None => lit "None"
  end.

Definition search_cols (r : row) : list (option str) :=
  [brand r; model r; body_type r; fuel_type r; drive_type r; transmission r].

(** Lines 75-80: the six columns as strings, joined by blanks, lowercased;
    [searchable_text] is the entry of one row. *)
Definition searchable_text (r : row) : str :=
  lower (join (lit " ") (map astype_str (search_cols r))).

Definition haystack (filtered : DataFrame) : list str :=
  map searchable_text filtered.

(** On a frame without rows [agg] returns a frame and not a Series, and
    line 79 fails for want of the attribute [str]. *)
Definition haystack_of (filtered : DataFrame) : result (list str) :=
  match filtered with
  | [] => Raise AttributeError
  | _ => Return (haystack filtered)
  end.

(** Lines 82-84: the loop over the terms, [mask &= haystack.str.contains(term)]. *)
Fixpoint term_loop (hay : list str) (terms : list str) (mask : list bool)
  : result (list bool) :=
  match terms with
  | [] => Return mask
  | term :: terms' =>
      found <- str_contains hay term ;;
      term_loop hay terms' (series_and mask found)
  end.

(** Lines 71-86. *)
Definition text_search (filtered : DataFrame) (q : option str)
  : result DataFrame :=
  if truthy_opt q && truthy (strip (str_of q)) then
    let terms := split (lower (strip (str_of q))) in
    hay <- haystack_of filtered ;;
    mask <- term_loop hay terms (repeat true (List.length filtered)) ;;
    Return (boolean_index filtered mask)
  else Return filtered.

(** [if value: filtered = filtered[filtered[col] == value]] *)
Definition equals_filter (col : row -> option str) (value : option str)
  (filtered : DataFrame) : DataFrame :=
  if truthy_opt value
  then boolean_index filtered (map (fun r => cell_eq (col r) (str_of value)) filtered)
  else filtered.

(** [if bound is not None: filtered = filtered[filtered[col] >= bound]] *)
Definition min_filter (col : row -> option Q) (bound : option Z)
  (filtered : DataFrame) : DataFrame :=
  match bound with
  | Some n => boolean_index filtered (map (fun r => cell_ge (col r) n) filtered)
  | None => filtered
  end.

Definition max_filter (col : row -> option Q) (bound : option Z)
  (filtered : DataFrame) : DataFrame :=
  match bound with
  | Some n => boolean_index filtered (map (fun r => cell_le (col r) n) filtered)
  | None => filtered
  end.

Definition apply_filters (data : DataFrame) (a : Args.t) : result DataFrame :=
  let filtered := data in
  filtered <- text_search filtered (Args.q a) ;;
  let filtered := equals_filter brand (Args.brand a) filtered in
  let filtered := equals_filter model (Args.model a) filtered in
  let filtered := equals_filter body_type (Args.body_type a) filtered in
  let filtered := equals_filter fuel_type (Args.fuel_type a) filtered in
  let filtered := equals_filter drive_type (Args.drive_type a) filtered in
  let filtered := equals_filter transmission (Args.transmission a) filtered in
  y_min <- _to_int (Args.year_min a) ;;
  y_max <- _to_int (Args.year_max a) ;;
  hp_min_i <- _to_int (Args.hp_min a) ;;
  hp_max_i <- _to_int (Args.hp_max a) ;;
  p_min <- _to_int (Args.price_min a) ;;
  p_max <- _to_int (Args.price_max a) ;;
  let filtered := min_filter year y_min filtered in
  let filtered := max_filter year y_max filtered in
  let filtered := min_filter horsepower hp_min_i filtered in
  let filtered := max_filter horsepower hp_max_i filtered in
  let filtered := min_filter price_usd p_min filtered in
  let filtered := max_filter price_usd p_max filtered in
  Return filtered.

(** *** The constraints of a criteria, evaluated on one record

    The direct evaluation the specification compares [apply_filters] with:
    every term of the query is a substring of the record's searchable text,
    every categorical value given equals the record's field, every bound
    that parses holds of the record's number. *)

(** Whether a text search is made for the query: the test of line 71. *)
Definition searching (q : option str) : bool :=
  truthy_opt q && truthy (strip (str_of q)).

Definition is_empty {A : Type} (l : list A) : bool :=
  match l with [] => true | _ => false end.

Definition terms_of (q : option str) : list str :=
  if truthy_opt q then split (lower (strip (str_of q))) else [].

Definition text_ok (q : option str) (r : row) : bool :=
  forallb (fun term => contains (searchable_text r) term) (terms_of q).

Definition equals_ok (cell : option str) (value : option str) : bool :=
  match value with
  | Some (c :: v) => cell_eq cell (c :: v)
  | _ => true
  end.

Definition parsed (bound : option str) : option Z :=
  match _to_int bound with
  | Return (Some n) => Some n
  | _ => None
  end.

Definition min_ok (cell : option Q) (bound : option str) : bool :=
  match parsed bound with
  | Some n => cell_ge cell n
  | None => true
  end.

Definition max_ok (cell : option Q) (bound : option str) : bool :=
  match parsed bound with
  | Some n => cell_le cell n
  | None => true
  end.

Definition categorical_ok (a : Args.t) (r : row) : bool :=
  equals_ok (brand r) (Args.brand a) &&
  equals_ok (model r) (Args.model a) &&
  equals_ok (body_type r) (Args.body_type a) &&
  equals_ok (fuel_type r) (Args.fuel_type a) &&
  equals_ok (drive_type r) (Args.drive_type a) &&
  equals_ok (transmission r) (Args.transmission a).

Definition numeric_ok (a : Args.t) (r : row) : bool :=
  min_ok (year r) (Args.year_min a) &&
  max_ok (year r) (Args.year_max a) &&
  min_ok (horsepower r) (Args.hp_min a) &&
  max_ok (horsepower r) (Args.hp_max a) &&
  min_ok (price_usd r) (Args.price_min a) &&
  max_ok (price_usd r) (Args.price_max a).

Definition satisfies (a : Args.t) (r : row) : bool :=
  text_ok (Args.q a) r && categorical_ok a r && numeric_ok a r.

(** The text constraint as the specification words it: the terms are the
    lowercased white-space separated words of [q], the text is the
    lowercased concatenation of the six fields. *)
Definition spec_text (r : row) : str :=
  lower (List.concat (map astype_str (search_cols r))).

Definition spec_text_ok (q : str) (r : row) : bool :=
  forallb (fun term => contains (spec_text r) term) (map lower (split q)).

(** A term free of the special characters of regular expressions. *)
Definition plain (term : str) : bool :=
  forallb (fun c => negb (Re.special c)) term.

(** ** [recommend] (app.py, lines 216-247) *)

(** [x - k], [x + k] and [x * k] on a numeric cell: NaN stays NaN.  The
    result is the exact one; the code rounds it to a float64, which changes
    nothing where the exact result is a float64, as for an integer [x] with
    [x - 1] and [x + 1] [exact_in_float64]. *)
Definition cell_sub (x : option Q) (k : Q) : option Q :=
  option_map (fun v => v - k)%Q x.

Definition cell_add (x : option Q) (k : Q) : option Q :=
  option_map (fun v => v + k)%Q x.

Definition cell_mul (x : option Q) (k : Q) : option Q :=
  option_map (fun v => v * k)%Q x.

(** [column.between(left, right)]: [left <= x] and [x <= right], both false
    as soon as one side is NaN. *)
Definition between (x left right : option Q) : bool :=
  match x, left, right with
  | Some v, Some l, Some r => Qle_bool l v && Qle_bool v r
  | _, _, _ => false
  end.

Inductive recommendation :=
| NotFound
| Rendered (car : row) (similar_cars price_range_cars : DataFrame).

Definition similar_mask (car : row) (car_id : Z) (r : row) : bool :=
  let year_ := year car in
  let hp := horsepower car in
  cell_eq_cell (brand r) (brand car) &&
  cell_eq_cell (body_type r) (body_type car) &&
  between (year r) (cell_sub year_ 1) (cell_add year_ 1) &&
  between (horsepower r) (cell_mul hp (8 # 10)) (cell_mul hp (12 # 10)) &&
  negb (id r =? car_id).

Definition price_range_mask (car : row) (car_id : Z) (r : row) : bool :=
  let price := price_usd car in
  between (price_usd r) (cell_mul price (9 # 10)) (cell_mul price (11 # 10)) &&
  negb (id r =? car_id).

Definition recommend (df : DataFrame) (car_id : Z) : recommendation :=
  let car_row := boolean_index df (map (fun r => id r =? car_id) df) in
  match car_row with
  | [] => NotFound
  | car :: _ =>
      let similar := boolean_index df (map (similar_mask car car_id) df) in
      let price_range_cars :=
        boolean_index df (map (price_range_mask car car_id) df) in
      Rendered car similar price_range_cars
  end.

(** The record the recommendations are made for: [car_row.iloc[0]]. *)
Definition reference (df : DataFrame) (car_id : Z) : option row :=
  match recommend df car_id with
  | Rendered car _ _ => Some car
  | NotFound => None
  end.

(** The two operations of the specification's Similarity Finder. *)
Definition similar_by_attributes (df : DataFrame) (car_id : Z)
  : option DataFrame :=
  match recommend df car_id with
  | Rendered _ similar _ => Some similar
  | NotFound => None
  end.

Definition similar_by_price (df : DataFrame) (car_id : Z)
  : option DataFrame :=
  match recommend df car_id with
  | Rendered _ _ price_range_cars => Some price_range_cars
  | NotFound => None
  end.

(** ** [toggle_favorite] (app.py, lines 194-206)

    The session keeps the favourites as a list under the key [favorites];
    a session without the key reads as the empty list (line 196). *)

(** [l.remove(x)] for an [x] that occurs in [l]: the first occurrence goes. *)
Fixpoint list_remove (x : Z) (l : list Z) : list Z :=
  match l with
  | [] => []
  | y :: l' => if y =? x then l' else y :: list_remove x l'
  end.

(** [x in l] *)
Definition list_in (x : Z) (l : list Z) : bool := existsb (Z.eqb x) l.

(** Lines 198-201: the list after the test on [car_id]. *)
Definition toggled (favorites : list Z) (car_id : Z) : list Z :=
  if list_in car_id favorites
  then list_remove car_id favorites
  else favorites ++ [car_id].

(** [app.secret_key]: app.py sets none, so it keeps Flask's default. *)
Definition secret_key : option str := None.

(** [session["favorites"] = favorites] (line 203).  Without a secret key
    Flask gives every request a session that can be read and not written:
    the assignment raises RuntimeError. *)
Definition session_set (key : option str) (favorites : list Z)
  : result (list Z) :=
  if truthy_opt key then Return favorites else Raise RuntimeError.

(** Lines 196-203, for an application whose secret key is [key]: what the
    session holds under [favorites] once the assignment is made. *)
Definition toggle_session (key : option str) (stored : list Z) (car_id : Z)
  : result (list Z) :=
  let favorites := stored in
  let favorites := toggled favorites car_id in
  session_set key favorites.

(** What the session holds after the request; a request that raises
    leaves the session as it was. *)
Definition stored_after (key : option str) (stored : list Z) (car_id : Z)
  : list Z :=
  match toggle_session key stored car_id with
  | Return favorites => favorites
  | _ => stored
  end.

(** The favourites a session can hold: it starts without the key, read as
    the empty list, and only lines 198-203 write it. *)
Inductive session_state : list Z -> Prop :=
| session_new : session_state []
| session_toggled favorites car_id :
    session_state favorites ->
    session_state (toggled favorites car_id).

(** ** Loading the table (app.py, lines 21-31) *)

(** A cell of the file as [pd.to_numeric(..., errors="coerce")] reads it: a
    finite number, an infinite one, or text that is no number (an empty
    cell included). *)
Inductive csv_cell :=
| Number (v : Q)
| Infinite
| NotNumber.

(** One line of the file.  [csv_label] is its row label: when the lines are
    one field longer than the header, [read_csv] takes the first field of
    each line as the index of the frame and not as a column. *)
Record csv_line := {
  csv_label : csv_cell;
  csv_id : csv_cell;
  csv_index : csv_cell;
  csv_brand : option str;
  csv_model : option str;
  csv_body_type : option str;
  csv_fuel_type : option str;
  csv_drive_type : option str;
  csv_transmission : option str;
  csv_year : csv_cell;
  csv_horsepower : csv_cell;
  csv_price_usd : csv_cell
}.

(** A float64 value. *)
Inductive float64 :=
| Finite (v : Q)
| Inf
| NaN.

(** [pd.to_numeric(column, errors="coerce")] *)
Definition to_numeric (c : csv_cell) : float64 :=
  match c with
  | Number v => Finite v
  | Infinite => Inf
  | NotNumber => NaN
  end.

Definition fillna (default : Q) (x : float64) : float64 :=
  match x with
  | NaN => Finite default
  | _ => x
  end.

Definition is_finite (x : float64) : bool :=
  match x with
  | Finite _ => true
  | _ => false
  end.

Definition int64_min : Z := - 2 ^ 63.
Definition int64_max : Z := 2 ^ 63 - 1.

(** The cast of a finite value to an integer: the fraction is dropped. *)
Definition truncate (v : Q) : Z := Z.quot (Qnum v) (Zpos (Qden v)).

(** The cast of one value to int64.  C leaves the cast of a value outside
    the range of int64 undefined (numpy on x86-64 gives -2^63 for it); it
    is outside the model. *)
Definition cast_int64 (x : float64) : result Z :=
  match x with
  | Finite v =>
      let k := truncate v in
      if (int64_min <=? k) && (k <=? int64_max) then Return k else Unmodelled
  | _ => Raise ValueError
  end.

Fixpoint traverse {A B : Type} (f : A -> result B) (l : list A)
  : result (list B) :=
  match l with
  | [] => Return []
  | x :: l' => y <- f x ;; ys <- traverse f l' ;; Return (y :: ys)
  end.

(** [column.astype(int)]: pandas refuses a column that holds a value which
    is not finite (IntCastingNaNError, a ValueError), and casts the values
    otherwise. *)
Definition astype_int (column : list float64) : result (list Z) :=
  if forallb is_finite column then traverse cast_int64 column
  else Raise ValueError.

(** The frame [read_csv] makes of the file: whether it has a column named
    [id] and one named [index], whether its lines carry row labels (the
    cells of what the file does not have are not read), and its lines. *)
Record csv_file := {
  has_id_column : bool;
  has_index_column : bool;
  has_labels : bool;
  lines : list csv_line
}.

(** Lines 29-30: where the [id] column of the table comes from.  Without an
    [id] column, [reset_index()] turns the index of the frame into a column
    named [index], which [rename] turns into [id]: the row labels when the
    file has them, the row positions otherwise.  When the file already has a
    column named [index], the index goes to a column named [level_0]
    instead and it is the file's [index] column that [rename] turns into
    [id]. *)
Inductive id_source :=
| FromIdColumn
| FromIndexColumn
| FromLabels
| FromPosition.

Definition id_source_of (f : csv_file) : id_source :=
  if has_id_column f then FromIdColumn
  else if has_index_column f then FromIndexColumn
  else if has_labels f then FromLabels
  else FromPosition.

(** The cells that line 31 reads as [df["id"]], when they are cells of the
    file. *)
Definition id_cells (f : csv_file) : option (list csv_cell) :=
  match id_source_of f with
  | FromIdColumn => Some (map csv_id (lines f))
  | FromIndexColumn => Some (map csv_index (lines f))
  | FromLabels => Some (map csv_label (lines f))
  | FromPosition => None
  end.

(** Line 31 on one cell, up to the cast. *)
Definition coerce_id (c : csv_cell) : float64 := fillna 0 (to_numeric c).

(** Line 31: the [id] column of the table.  The row positions are integers
    already and stay as they are. *)
Definition ids_of (f : csv_file) : result (list Z) :=
  match id_cells f with
  | Some cells => astype_int (map coerce_id cells)
  | None => Return (map Z.of_nat (seq 0 (List.length (lines f))))
  end.

(** A numeric cell of the table.  The table of the model holds finite
    values and NaN; a file with an infinite year, horsepower or price is
    outside the model. *)
Definition numeric_cell (x : float64) : result (option Q) :=
  match x with
  | Finite v => Return (Some v)
  | NaN => Return None
  | Inf => Unmodelled
  end.

(** Lines 24-26 on one line of the file, with the id line 31 gives it. *)
Definition load_line (id_ : Z) (l : csv_line) : result row :=
  year_ <- numeric_cell (to_numeric (csv_year l)) ;;
  horsepower_ <- numeric_cell (to_numeric (csv_horsepower l)) ;;
  price_usd_ <- numeric_cell (to_numeric (csv_price_usd l)) ;;
  Return {| id := id_;
            brand := csv_brand l;
            model := csv_model l;
            body_type := csv_body_type l;
            fuel_type := csv_fuel_type l;
            drive_type := csv_drive_type l;
            transmission := csv_transmission l;
            year := year_;
            horsepower := horsepower_;
            price_usd := price_usd_ |}.

Fixpoint load_lines (ids : list Z) (ls : list csv_line) : result DataFrame :=
  match ids, ls with
  | i :: ids', l :: ls' =>
      r <- load_line i l ;;
      rest <- load_lines ids' ls' ;;
      Return (r :: rest)
  | _, _ => Return []
  end.

(** The module-level [df].  The only statement of lines 21-31 that can
    fail is the cast of line 31, so the ids are taken first: the model
    raises whenever the code does, also for a file that is outside the
    model for an infinite cell elsewhere. *)
Definition load (f : csv_file) : result DataFrame :=
  ids <- ids_of f ;;
  load_lines ids (lines f).

(** ** [api_search] (app.py, lines 308-335) *)

Record search_request := {
  arg_q : option str;
  arg_brand : option str;
  arg_limit : option str
}.

(** [x or ""] *)
Definition or_empty (x : option str) : str :=
  match x with
  | Some s => s
  | None => []
  end.

(** Lines 317-321. *)
Definition search_limit (limit : option str) : result Z :=
  try_except
    (limit <- match limit with
              | Some s => int s
              | None => Return 8
              end ;;
     Return (Z.max 1 (Z.min 20 limit)))
    (Return 8).

(** [sort_values(by="price_usd", ascending=True)]: pandas sorts the rows
    that have a price with the sorting routine [argsort] (quicksort by
    default, whose order among equal prices is not fixed) and puts the rows
    without a price after them, in their order of appearance. *)
Definition priced (rows : DataFrame) : list (Q * row) :=
  flat_map (fun r => match price_usd r with
                     | Some p => [(p, r)]
                     | None => []
                     end) rows.

Definition unpriced (rows : DataFrame) : DataFrame :=
  filter (fun r => match price_usd r with Some _ => false | None => true end) rows.

Definition sort_values (argsort : list (Q * row) -> list (Q * row))
  (rows : DataFrame) : DataFrame :=
  map snd (argsort (priced rows)) ++ unpriced rows.

(** [frame.head(n)] *)
Definition head (n : Z) (rows : DataFrame) : DataFrame :=
  firstn (Z.to_nat n) rows.

(** One entry of the JSON answer: the columns [cols] of a row. *)
Record suggestion := {
  s_id : Z;
  s_brand : option str;
  s_model : option str;
  s_year : option Q;
  s_price_usd : option Q;
  s_body_type : option str
}.

Definition cols (r : row) : suggestion :=
  {| s_id := id r; s_brand := brand r; s_model := model r;
     s_year := year r; s_price_usd := price_usd r;
     s_body_type := body_type r |}.

(** The call [apply_filters(df, q=q, brand=brand)] of line 327: the other
    arguments keep their default. *)
Definition search_criteria (q brand_ : str) : Args.t :=
  {| Args.q := Some q; Args.brand := Some brand_;
     Args.model := None; Args.body_type := None;
     Args.year_min := None; Args.year_max := None;
     Args.hp_min := None; Args.hp_max := None;
     Args.price_min := None; Args.price_max := None;
     Args.fuel_type := None; Args.drive_type := None;
     Args.transmission := None |}.

(** The rows of the answer, before the projection on [cols]. *)
Definition api_search_rows (argsort : list (Q * row) -> list (Q * row))
  (df : DataFrame) (args : search_request) : result DataFrame :=
  let q := strip (or_empty (arg_q args)) in
  let brand_ := strip (or_empty (arg_brand args)) in
  limit <- search_limit (arg_limit args) ;;
  if (Z.of_nat (List.length q) <? 2) && negb (truthy brand_) then Return []
  else
    result <- apply_filters df (search_criteria q brand_) ;;
    Return (head limit (sort_values argsort result)).

Definition api_search (argsort : list (Q * row) -> list (Q * row))
  (df : DataFrame) (args : search_request) : result (list suggestion) :=
  rows <- api_search_rows argsort df args ;;
  Return (map cols rows).

(** A sorting routine to run the handler with: insertion sort on the price. *)
Fixpoint insert_by_price (x : Q * row) (l : list (Q * row)) : list (Q * row) :=
  match l with
  | [] => [x]
  | y :: l' =>
      if Qle_bool (fst x) (fst y) then x :: l else y :: insert_by_price x l'
  end.

Definition insertion_sort (l : list (Q * row)) : list (Q * row) :=
  fold_right insert_by_price [] l.

(** Ascending order of prices: of the keys that [argsort] sorts, and of the
    price cells of an answer, where a missing price compares with nothing. *)
Definition key_le (a b : Q * row) : Prop := (fst a <= fst b)%Q.

Definition ascending (a b : option Q) : Prop :=
  match a, b with
  | Some x, Some y => (x <= y)%Q
  | _, _ => True
  end.

Definition search_request_of (q_ : string) : search_request :=
  {| arg_q := Some (lit q_); arg_brand := None; arg_limit := None |}.

(** * The other handlers and helpers *)

(** ** [str(n)] for a Python int: the decimal digits, with a minus sign
    when [n] is negative; refused with a ValueError when there are more
    digits than the limit of [int] allows. *)

Definition decimal (n : Z) : str :=
  list_ascii_of_string (NilZero.string_of_int (Z.to_int n)).

Definition str_int (n : Z) : result str :=
  if max_str_digits <? count_digits (decimal n) then Raise ValueError
  else Return (decimal n).

(** ** [_safe_next] (app.py, lines 46-55)

    Of the result of [urlparse] only the scheme and the network location
    are read.  [urlparse] itself is left open: it is an argument, which
    returns the two components or raises.  So is [index_url], the value of
    [url_for("index")]. *)

Record ParseResult := {
  scheme : str;
  netloc : str
}.

Definition _safe_next (urlparse : str -> result ParseResult) (index_url : str)
  (next_url : str) : result str :=
  if negb (truthy next_url) then Return index_url
  else
    p <- urlparse next_url ;;
    if truthy (scheme p) || truthy (netloc p) then Return index_url
    else if negb (startswith next_url (lit "/")) then Return index_url
    else Return next_url.

(** [a or b] where [a] may be [None] or a string and [b] is a string. *)
Definition or_else (a : option str) (b : str) : str :=
  match a with
  | Some s => if truthy s then s else b
  | None => b
  end.

(** Line 205: where [toggle_favorite] redirects to. *)
Definition toggle_redirect (urlparse : str -> result ParseResult)
  (index_url : str) (next referrer : option str) : result str :=
  _safe_next urlparse index_url (or_else next (or_else referrer index_url)).

(** The handler: the favourites the session holds afterwards and the
    address of the redirect. *)
Definition toggle_favorite (key : option str)
  (urlparse : str -> result ParseResult) (index_url : str)
  (stored : list Z) (car_id : Z) (next referrer : option str)
  : result (list Z * str) :=
  favorites <- toggle_session key stored car_id ;;
  next_url <- toggle_redirect urlparse index_url next referrer ;;
  Return (favorites, next_url).

(** ** [favorites] (app.py, lines 209-213) *)

Definition favorites (df : DataFrame) (favorites_ids : list Z) : DataFrame :=
  boolean_index df (map (fun r => list_in (id r) favorites_ids) df).

(** ** [index] (app.py, lines 127-191): the choices of the form *)

(** [column.dropna()] *)
Definition dropna {A : Type} (column : list (option A)) : list A :=
  flat_map (fun c => match c with Some v => [v] | None => [] end) column.

(** [column.unique()]: the values in the order they first appear; [seen]
    holds the values met so far. *)
Fixpoint unique_from (seen : list str) (values : list str) : list str :=
  match values with
  | [] => []
  | v :: values' =>
      if existsb (str_eqb v) seen then unique_from seen values'
      else v :: unique_from (v :: seen) values'
  end.

Definition unique (values : list str) : list str := unique_from [] values.

(** [a <= b] on strings: the order of the first character that differs, a
    prefix coming first. *)
Fixpoint str_leb (a b : str) : bool :=
  match a, b with
  | [], _ => true
  | _ :: _, [] => false
  | x :: a', y :: b' =>
      if (code x <? code y)%N then true
      else if (code x =? code y)%N then str_leb a' b'
      else false
  end.

Definition str_le (a b : str) : Prop := str_leb a b = true.

(** [sorted(values)].  Equal strings cannot be told apart, so the sorted
    list does not depend on the sorting routine; insertion is used. *)
Fixpoint insert_sorted (v : str) (l : list str) : list str :=
  match l with
  | [] => [v]
  | w :: l' => if str_leb v w then v :: l else w :: insert_sorted v l'
  end.

Definition sorted (values : list str) : list str :=
  fold_right insert_sorted [] values.

(** [sorted(df[col].dropna().unique())], lines 129-130 and 139-142. *)
Definition choices (col : row -> option str) (df : DataFrame) : list str :=
  sorted (unique (dropna (map col df))).

(** Lines 133-137: for every brand, in ascending order, its models. *)
Definition models_by_brand (df : DataFrame) : list (str * list str) :=
  map (fun b =>
         (b, choices model
               (boolean_index df (map (fun r => cell_eq (brand r) b) df))))
      (choices brand df).

(** Line 151 (and 258): every parameter of the form as a string, the empty
    string when the request does not carry it.  The request is given as the
    parameters it carries. *)
Definition filters_of (request_args : Args.t) : Args.t :=
  {| Args.q := Some (or_empty (Args.q request_args));
     Args.brand := Some (or_empty (Args.brand request_args));
     Args.model := Some (or_empty (Args.model request_args));
     Args.body_type := Some (or_empty (Args.body_type request_args));
     Args.year_min := Some (or_empty (Args.year_min request_args));
     Args.year_max := Some (or_empty (Args.year_max request_args));
     Args.hp_min := Some (or_empty (Args.hp_min request_args));
     Args.hp_max := Some (or_empty (Args.hp_max request_args));
     Args.price_min := Some (or_empty (Args.price_min request_args));
     Args.price_max := Some (or_empty (Args.price_max request_args));
     Args.fuel_type := Some (or_empty (Args.fuel_type request_args));
     Args.drive_type := Some (or_empty (Args.drive_type request_args));
     Args.transmission := Some (or_empty (Args.transmission request_args)) |}.

(** Lines 153-168 (and 260-275): the cars that [index] lists and [export]
    writes. *)
Definition filtered_cars (df : DataFrame) (request_args : Args.t)
  : result DataFrame :=
  apply_filters df (filters_of request_args).

(** The criteria [a] with another query. *)
Definition with_q (a : Args.t) (q : option str) : Args.t :=
  {| Args.q := q;
     Args.brand := Args.brand a; Args.model := Args.model a;
     Args.body_type := Args.body_type a;
     Args.year_min := Args.year_min a; Args.year_max := Args.year_max a;
     Args.hp_min := Args.hp_min a; Args.hp_max := Args.hp_max a;
     Args.price_min := Args.price_min a; Args.price_max := Args.price_max a;
     Args.fuel_type := Args.fuel_type a; Args.drive_type := Args.drive_type a;
     Args.transmission := Args.transmission a |}.

(** The request of a visitor who picks a brand and a model in the form and
    sets nothing else. *)
Definition selection (brand_ model_ : str) : Args.t :=
  {| Args.q := None; Args.brand := Some brand_; Args.model := Some model_;
     Args.body_type := None;
     Args.year_min := None; Args.year_max := None;
     Args.hp_min := None; Args.hp_max := None;
     Args.price_min := None; Args.price_max := None;
     Args.fuel_type := None; Args.drive_type := None;
     Args.transmission := None |}.

(** The characters of a decimal number, most significant digit first. *)
Definition chars (d : Decimal.uint) : str :=
  list_ascii_of_string (NilEmpty.string_of_uint d).

(** ** [basic_stats] (analysis_utils.py, lines 30-57)

    The mean and the median are computed by pandas on floats and rounded by
    [round]; they are left open, as the arguments [rounded_mean] and
    [rounded_median], which stand for [int(round(prices.mean()))] and
    [int(round(prices.median()))].  So is the routine [sort_counts] that
    [value_counts] sorts the counts with, in descending order. *)

Record stats := {
  total_cars : Z;
  mean_price : Z;
  median_price : Z;
  popular_brands : list (str * nat)
}.

(** [column.fillna(value)] on an object cell. *)
Definition fillna_str (value : str) (cell : option str) : str :=
  match cell with
  | Some s => s
  | None => value
  end.

Definition count_of (v : str) (values : list str) : nat :=
  List.length (filter (str_eqb v) values).

(** [column.value_counts()]: every value with its number of occurrences. *)
Definition value_counts
  (sort_counts : list (str * nat) -> list (str * nat))
  (values : list str) : list (str * nat) :=
  sort_counts (map (fun v => (v, count_of v values)) (unique values)).

Definition basic_stats (rounded_mean rounded_median : list Q -> Z)
  (sort_counts : list (str * nat) -> list (str * nat))
  (df : DataFrame) : stats :=
  let data := dropna (map price_usd df) in
  {| total_cars := Z.of_nat (List.length df);
     mean_price := match data with [] => 0 | _ => rounded_mean data end;
     median_price := match data with [] => 0 | _ => rounded_median data end;
     popular_brands :=
       firstn 5
         (value_counts sort_counts
            (map (fun r => fillna_str (lit "Unknown") (brand r)) df)) |}.

(** The number of records of a brand, the records without a brand counting
    for the brand Unknown. *)
Definition brand_count (df : DataFrame) (b : str) : nat :=
  List.length
    (filter (fun r => str_eqb b (fillna_str (lit "Unknown") (brand r))) df).

(** Descending order of the counts. *)
Definition count_ge (a b : str * nat) : Prop := (snd b <= snd a)%nat.

(** ** [price_distribution_by_brand] (analysis_utils.py, lines 61-84)

    What is drawn: the placeholder text, or one box for every brand, with
    the prices of the brand.  The drawing itself is not modelled. *)

Inductive figure :=
| NoData
| Boxplot (labels : list str) (prices : list (list Q)).

Definition has_value {A : Type} (cell : option A) : bool :=
  match cell with Some _ => true | None => false end.

Definition price_distribution_by_brand (df : DataFrame) : figure :=
  let data :=
    filter (fun r => has_value (brand r) && has_value (price_usd r)) df in
  match data with
  | [] => NoData
  | _ =>
      let brands := sorted (unique (dropna (map brand data))) in
      Boxplot brands
        (map (fun b =>
                dropna (map price_usd
                          (boolean_index data
                             (map (fun r => cell_eq (brand r) b) data))))
             brands)
  end.

(** Sorting routines to run [basic_stats] with. *)
Fixpoint insert_by_count (x : str * nat) (l : list (str * nat))
  : list (str * nat) :=
  match l with
  | [] => [x]
  | y :: l' =>
      if (snd y <=? snd x)%nat then x :: l else y :: insert_by_count x l'
  end.

Definition sort_by_count (l : list (str * nat)) : list (str * nat) :=
  fold_right insert_by_count [] l.

(** ** Integer text, as a grammar

    What [int] accepts once white space is stripped: an optional sign and a
    run of digits in which single underscores may stand between digits. *)

Inductive digit_run : str -> Prop :=
| run_digit d : isdigit d = true -> digit_run [d]
| run_more d s : isdigit d = true -> digit_run s -> digit_run (d :: s)
| run_underscore d s :
    isdigit d = true -> digit_run s -> digit_run (d :: "_"%char :: s).

Inductive integer_text : str -> Prop :=
| int_unsigned s : digit_run s -> integer_text s
| int_plus s : digit_run s -> integer_text ("+"%char :: s)
| int_minus s : digit_run s -> integer_text ("-"%char :: s).

(** What may follow a digit in such a run. *)
Definition tail_ok (s : str) : Prop :=
  s = [] \/ digit_run s \/ exists s', s = "_"%char :: s' /\ digit_run s'.

(** ** The search, term by term

    The terms of a query, each compiled; the first that fails decides. *)
Fixpoint compile_all (terms : list str) : result (list (list Re.atom)) :=
  match terms with
  | [] => Return []
  | term :: terms' =>
      p <- Re.compile term ;;
      ps <- compile_all terms' ;;
      Return (p :: ps)
  end.

Definition found_all (ps : list (list Re.atom)) (r : row) : bool :=
  forallb (fun p => Re.search p (searchable_text r)) ps.

(** The records of a table that pass the search and the constraints on the
    fields, once the terms are compiled. *)
Definition selected (data : DataFrame) (a : Args.t) : result DataFrame :=
  ps <- compile_all (terms_of (Args.q a)) ;;
  Return (filter (fun r => found_all ps r && categorical_ok a r && numeric_ok a r)
            data).

(** ** The ids of the table, as a specification

    [integer_part v k]: [k] is [v] with its fraction dropped. *)
Definition integer_part (v : Q) (k : Z) : Prop :=
  ((0 <= v)%Q -> (inject_Z k <= v)%Q /\ (v < inject_Z (k + 1))%Q) /\
  ((v <= 0)%Q -> (inject_Z (k - 1) < v)%Q /\ (v <= inject_Z k)%Q).

(** The id of a record whose cell of the id column is [c]: 0 for a cell
    that is no number, the integer part of a number, within int64. *)
Definition id_of_cell (c : csv_cell) (k : Z) : Prop :=
  match c with
  | Number v => integer_part v k /\ int64_min <= k <= int64_max
  | NotNumber => k = 0
  | Infinite => False
  end.

Definition finite_cell (c : csv_cell) : bool :=
  match c with
  | Infinite => false
  | _ => true
  end.

(** A line without an infinite year, horsepower or price. *)
Definition finite_line (l : csv_line) : bool :=
  finite_cell (csv_year l) && finite_cell (csv_horsepower l) &&
  finite_cell (csv_price_usd l).

(** The records that a handler puts in a response: the cars of the index
    and export pages, those of the favourites page, the reference car and
    the two lists of a recommendation, and the records the search
    suggestions are made of. *)
Inductive shown (argsort : list (Q * row) -> list (Q * row)) (df : DataFrame)
  (r : row) : Prop :=
| shown_filtered request_args cars :
    filtered_cars df request_args = Return cars -> In r cars ->
    shown argsort df r
| shown_favorite favorites_ids :
    In r (favorites df favorites_ids) -> shown argsort df r
| shown_reference car_id similar price_range_cars :
    recommend df car_id = Rendered r similar price_range_cars ->
    shown argsort df r
| shown_similar car_id car similar price_range_cars :
    recommend df car_id = Rendered car similar price_range_cars ->
    In r similar -> shown argsort df r
| shown_price_range car_id car similar price_range_cars :
    recommend df car_id = Rendered car similar price_range_cars ->
    In r price_range_cars -> shown argsort df r
| shown_suggested args rows :
    api_search_rows argsort df args = Return rows -> In r rows ->
    shown argsort df r.

(** ** Sample records *)

Module Sample.

Definition car (i : Z) (b m : string) (y hp p : option Q) : row :=
  {| id := i; brand := Some (lit b); model := Some (lit m);
     body_type := Some (lit "sedan"); fuel_type := Some (lit "petrol");
     drive_type := Some (lit "FWD"); transmission := Some (lit "automatic");
     year := y; horsepower := hp; price_usd := p |}.

Definition camry : row :=
  car 1 "Toyota" "Camry" (Some (2020 # 1)) (Some (150 # 1)) (Some (20000 # 1)).
Definition corolla : row :=
  car 2 "Toyota" "Corolla" (Some (2021 # 1)) (Some (160 # 1)) (Some (21000 # 1)).
Definition civic : row :=
  car 3 "Honda" "Civic" (Some (2020 # 1)) (Some (140 # 1)) (Some (19000 # 1)).
Definition rio : row :=
  car 4 "Kia" "Rio" (Some (2019 # 1)) (Some (100 # 1)) (Some (12000 # 1)).
(** A listing whose year, power and price are missing. *)
Definition bare : row := car 5 "Toyota" "Mark" None None None.

Definition ceed : row := car 6 "Kia" "Ceed" (Some (2018 # 1)) None None.

Definition table : DataFrame := [camry; corolla; civic; rio; bare].

(** A table that starts with a listing without a price. *)
Definition unsorted : DataFrame := [bare; camry; ceed; rio].

Definition query (s : string) : Args.t :=
  {| Args.q := Some (lit s); Args.brand := None; Args.model := None;
     Args.body_type := None;
     Args.year_min := None; Args.year_max := None;
     Args.hp_min := None; Args.hp_max := None;
     Args.price_min := None; Args.price_max := None;
     Args.fuel_type := None; Args.drive_type := None;
     Args.transmission := None |}.

Definition year_from (s : string) : Args.t :=
  {| Args.q := None; Args.brand := None; Args.model := None;
     Args.body_type := None;
     Args.year_min := Some (lit s); Args.year_max := None;
     Args.hp_min := None; Args.hp_max := None;
     Args.price_min := None; Args.price_max := None;
     Args.fuel_type := None; Args.drive_type := None;
     Args.transmission := None |}.

Definition line (i : csv_cell) (b : string) : csv_line :=
  {| csv_label := NotNumber; csv_id := i; csv_index := NotNumber;
     csv_brand := Some (lit b); csv_model := None;
     csv_body_type := None; csv_fuel_type := None; csv_drive_type := None;
     csv_transmission := None; csv_year := NotNumber;
     csv_horsepower := NotNumber; csv_price_usd := NotNumber |}.

(** A file whose [id] column holds two cells that are no numbers. *)
Definition file_text_ids : csv_file :=
  {| has_id_column := true; has_index_column := false; has_labels := false;
     lines := [line NotNumber "Toyota"; line NotNumber "Honda"] |}.

(** The same lines in a file without an [id] column. *)
Definition file_no_ids : csv_file :=
  {| has_id_column := false; has_index_column := false; has_labels := false;
     lines := [line NotNumber "Toyota"; line NotNumber "Honda"] |}.

(** A file whose [id] column holds 7 and 9.5. *)
Definition file_ids : csv_file :=
  {| has_id_column := true; has_index_column := false; has_labels := false;
     lines := [line (Number 7) "Toyota"; line (Number (19 # 2)) "Honda"] |}.

(** A file whose [id] column holds an infinite value. *)
Definition file_infinite_id : csv_file :=
  {| has_id_column := true; has_index_column := false; has_labels := false;
     lines := [line (Number 7) "Toyota"; line Infinite "Honda"] |}.

End Sample.

(** ** More sample data *)

Module Demo.

Definition years (lo hi : string) : Args.t :=
  {| Args.q := None; Args.brand := None; Args.model := None;
     Args.body_type := None;
     Args.year_min := Some (lit lo); Args.year_max := Some (lit hi);
     Args.hp_min := None; Args.hp_max := None;
     Args.price_min := None; Args.price_max := None;
     Args.fuel_type := None; Args.drive_type := None;
     Args.transmission := None |}.

(** A listing without a brand. *)
Definition nameless : row :=
  {| id := 7; brand := None; model := Some (lit "Niva");
     body_type := None; fuel_type := None; drive_type := None;
     transmission := None; year := Some (2001 # 1); horsepower := None;
     price_usd := Some (3000 # 1) |}.

Definition table : DataFrame :=
  [Sample.corolla; Sample.rio; nameless; Sample.camry; Sample.bare;
   Sample.civic; Sample.ceed].

(** A parser of URLs to run [_safe_next] with: it reports a network
    location for a text that starts with two slashes and nothing else. *)
Definition slashes_only (url : str) : result ParseResult :=
  Return {| scheme := [];
            netloc := if startswith url (lit "//") then lit "host" else [] |}.

Definition two_toyotas : search_request :=
  {| arg_q := Some (lit "toyota"); arg_brand := None;
     arg_limit := Some (lit "2") |}.

Definition brand_toyota : search_request :=
  {| arg_q := None; arg_brand := Some (lit " Toyota "); arg_limit := None |}.

(** Stand-ins for the rounded mean and median. *)
Definition no_rounding (prices : list Q) : Z := 1.

(** A secret key, for an application that is given one. *)
Definition key : option str := Some (lit "dev").

End Demo.

(** * Properties *)

(** ** The operations on the sample records *)

Example to_int_examples :
  map (fun s => _to_int (Some (lit s)))
    [" 42 "; "-5"; "1_000"; "007"; ""; "   "; "abc"; "5.0"; "4_"; "- 5"]%string
  = [Return (Some 42); Return (Some (-5)); Return (Some 1000);
     Return (Some 7); Return None; Return None; Return None; Return None;
     Return None; Return None].
Proof. reflexivity. Qed.

Example year_min_example :
  apply_filters Sample.table (Sample.year_from "2021")
  = Return [Sample.corolla].
Proof. reflexivity. Qed.

Example unparsed_bound_example :
  apply_filters Sample.table (Sample.year_from "twenty") = Return Sample.table.
Proof. reflexivity. Qed.

Example query_example :
  apply_filters Sample.table (Sample.query "  toyota CAM ")
  = Return [Sample.camry].
Proof. reflexivity. Qed.

Example recommend_example :
  recommend Sample.table 1
  = Rendered Sample.camry [Sample.corolla] [Sample.corolla; Sample.civic].
Proof. reflexivity. Qed.

Example recommend_unknown_example : recommend Sample.table 99 = NotFound.
Proof. reflexivity. Qed.

Example toggle_example :
  toggled [] 5 = [5] /\ toggled [5] 5 = [].
Proof. split; reflexivity. Qed.

Example toggle_handler_example :
  toggle_favorite secret_key Demo.slashes_only (lit "/") [] 5 None None
  = Raise RuntimeError /\
  toggle_favorite Demo.key Demo.slashes_only (lit "/") [] 5 None None
  = Return ([5], lit "/").
Proof. split; reflexivity. Qed.

Example empty_table_example :
  apply_filters [] (Sample.query "toyota") = Raise AttributeError /\
  apply_filters [] (Sample.year_from "2021") = Return [].
Proof. split; reflexivity. Qed.

Example long_text_example :
  _to_int (Some (repeat "1"%char 4301)) = Return None /\
  _to_int (Some (repeat "1"%char 4300)) <> Return None.
Proof. split; [vm_compute; reflexivity | vm_compute; discriminate]. Qed.

Example search_example :
  api_search_rows insertion_sort Sample.table
    {| arg_q := Some (lit "toyota"); arg_brand := None;
       arg_limit := Some (lit "2") |}
  = Return [Sample.camry; Sample.corolla].
Proof. reflexivity. Qed.

(** ** Strings *)

Lemma ascii_eqb_eq (a b : ascii) : ascii_eqb a b = true <-> a = b.
Proof. apply Ascii.eqb_eq. Qed.

Lemma str_eqb_eq (a b : str) : str_eqb a b = true <-> a = b.
Proof.
  revert b; induction a as [|x a IH]; intros [|y b]; simpl;
    try (split; [discriminate | discriminate]); try tauto.
  rewrite andb_true_iff, ascii_eqb_eq, IH.
  split; [intros [-> ->]; reflexivity | intros H; inversion H; auto].
Qed.

Lemma startswith_iff (s p : str) :
  startswith s p = true <-> exists post, s = p ++ post.
Proof.
  revert s; induction p as [|x p IH]; intros s; simpl.
  - split; [exists s; reflexivity | reflexivity].
  - destruct s as [|c s].
    + split; [discriminate | intros [post H]; discriminate].
    + rewrite andb_true_iff, ascii_eqb_eq, IH. split.
      * intros [-> [post ->]]. exists post; reflexivity.
      * intros [post H]. inversion H; subst. split; [reflexivity | eauto].
Qed.

(** [contains] decides the substring relation. *)
Lemma contains_iff (hay needle : str) :
  contains hay needle = true <-> exists pre post, hay = pre ++ needle ++ post.
Proof.
  induction hay as [|c hay IH].
  - simpl. rewrite orb_false_r, startswith_iff. split.
    + intros [post H]. exists [], post. exact H.
    + intros [pre [post H]]. destruct pre as [|x pre]; [|discriminate].
      exists post. exact H.
  - cbn [contains]. rewrite orb_true_iff, startswith_iff, IH. split.
    + intros [[post H] | [pre [post H]]].
      * exists [], post. exact H.
      * exists (c :: pre), post. rewrite H. reflexivity.
    + intros [pre [post H]]. destruct pre as [|x pre].
      * left. exists post. exact H.
      * right. inversion H; subst. exists pre, post. reflexivity.
Qed.

(** ** [int] and [_to_int] *)

Lemma underscore_not_digit : isdigit "_"%char = false.
Proof. reflexivity. Qed.

Lemma digit_run_cons (c : ascii) (s : str) :
  digit_run (c :: s) <-> isdigit c = true /\ tail_ok s.
Proof.
  split.
  - intros H. inversion H; subst; split; auto; unfold tail_ok; eauto.
  - intros [Hd [-> | [H | [s' [-> H]]]]].
    + now apply run_digit.
    + now apply run_more.
    + now apply run_underscore.
Qed.

Lemma digit_run_nil : ~ digit_run [].
Proof. intros H; inversion H. Qed.

Lemma digits_accepts (s : str) :
  forall acc,
    ((exists n, digits acc false s = Some n) <-> digit_run s) /\
    ((exists n, digits acc true s = Some n) <-> tail_ok s).
Proof.
  induction s as [|c s IH]; intros acc.
  - simpl. split; split.
    + intros [n H]; discriminate.
    + intros H; destruct (digit_run_nil H).
    + intros _. left; reflexivity.
    + intros _. eauto.
  - cbn [digits]. destruct (isdigit c) eqn:Hd.
    + destruct (IH (10 * acc + digit_value c)) as [_ IHt].
      split; rewrite IHt.
      * rewrite digit_run_cons. tauto.
      * unfold tail_ok at 2. rewrite digit_run_cons. split.
        -- intros H. right; left. split; [exact Hd | exact H].
        -- intros [H | [[_ H] | [s' [H _]]]]; [discriminate | exact H |].
           inversion H; subst. rewrite underscore_not_digit in Hd. discriminate.
    + split.
      * rewrite andb_false_r. split.
        -- intros [n H]; discriminate.
        -- rewrite digit_run_cons. intros [H _]. rewrite H in Hd. discriminate.
      * rewrite andb_true_r. destruct (ascii_eqb c "_"%char) eqn:Hu.
        -- apply ascii_eqb_eq in Hu; subst c.
           destruct (IH acc) as [IHf _]. rewrite IHf. split.
           ++ intros H. right; right. eauto.
           ++ intros [H | [H | [s' [H H']]]].
              ** discriminate.
              ** apply digit_run_cons in H. destruct H; discriminate.
              ** inversion H; subst. exact H'.
        -- split.
           ++ intros [n H]; discriminate.
           ++ intros [H | [H | [s' [H H']]]].
              ** discriminate.
              ** apply digit_run_cons in H.
                 destruct H as [H _]. rewrite H in Hd; discriminate.
              ** inversion H; subst. discriminate.
Qed.

Lemma signed_digits_accepts (s : str) :
  (exists n, signed_digits s = Some n) <-> integer_text s.
Proof.
  destruct s as [|c s]; simpl.
  - split; [intros [n H]; discriminate|].
    intros H; inversion H; subst. destruct (digit_run_nil H0).
  - destruct (ascii_eqb c "-"%char) eqn:Hm; [|destruct (ascii_eqb c "+"%char) eqn:Hp].
    + apply ascii_eqb_eq in Hm; subst c. split.
      * intros [n H]. apply int_minus. apply (digits_accepts s 0).
        destruct (digits 0 false s) as [m|]; [eauto | discriminate].
      * intros H. inversion H; subst.
        -- apply digit_run_cons in H0. destruct H0; discriminate.
        -- apply (digits_accepts s 0) in H1. destruct H1 as [m ->].
           simpl; eauto.
    + apply ascii_eqb_eq in Hp; subst c.
      rewrite (proj1 (digits_accepts s 0)). split.
      * apply int_plus.
      * intros H; inversion H; subst; [|assumption].
        apply digit_run_cons in H0. destruct H0; discriminate.
    + rewrite (proj1 (digits_accepts (c :: s) 0)). split.
      * apply int_unsigned.
      * intros H; inversion H; subst; [assumption | |];
          [rewrite (proj2 (ascii_eqb_eq _ _) eq_refl) in Hp
          |rewrite (proj2 (ascii_eqb_eq _ _) eq_refl) in Hm]; discriminate.
Qed.

(** [lstrip] drops a run of white space and nothing else. *)
Lemma lstrip_split (s : str) :
  exists w, s = w ++ lstrip s /\ forallb isspace w = true.
Proof.
  induction s as [|c s [w [IH Hw]]]; simpl.
  - exists []. auto.
  - destruct (isspace c) eqn:Hc.
    + exists (c :: w). simpl. rewrite Hc, Hw. split; [congruence | reflexivity].
    + exists []. auto.
Qed.

Lemma lstrip_head (s : str) :
  match lstrip s with [] => True | c :: _ => isspace c = false end.
Proof.
  induction s as [|c s IH]; simpl; [exact I|].
  destruct (isspace c) eqn:Hc; [exact IH | exact Hc].
Qed.

Lemma lstrip_fixed (s : str) :
  match s with [] => True | c :: _ => isspace c = false end -> lstrip s = s.
Proof. destruct s as [|c s]; simpl; [reflexivity | intros ->; reflexivity]. Qed.

Lemma lstrip_idempotent (s : str) : lstrip (lstrip s) = lstrip s.
Proof. apply lstrip_fixed, lstrip_head. Qed.

Lemma rstrip_split (s : str) : exists w, s = rstrip s ++ w.
Proof.
  unfold rstrip. destruct (lstrip_split (rev s)) as [w [H _]].
  exists (rev w). rewrite <- rev_app_distr, <- H, rev_involutive. reflexivity.
Qed.

Lemma strip_idempotent (s : str) : strip (strip s) = strip s.
Proof.
  unfold strip at 1.
  assert (H : lstrip (strip s) = strip s).
  { apply lstrip_fixed. unfold strip.
    destruct (rstrip_split (lstrip s)) as [w Hw].
    pose proof (lstrip_head s) as Hh.
    destruct (rstrip (lstrip s)) as [|c u]; [exact I|].
    rewrite Hw in Hh. exact Hh. }
  rewrite H. unfold strip, rstrip.
  rewrite rev_involutive, lstrip_idempotent. reflexivity.
Qed.

(** [int] returns exactly on integer text of at most [max_str_digits]
    digits, and raises [ValueError] on the rest. *)
Lemma int_returns (s : str) :
  (exists n, int s = Return n) <->
  integer_text (strip s) /\ count_digits (strip s) <= max_str_digits.
Proof.
  unfold int. rewrite <- signed_digits_accepts.
  destruct (signed_digits (strip s)) as [n|].
  - destruct (max_str_digits <? count_digits (strip s)) eqn:E.
    + apply Z.ltb_lt in E. split; [intros [m H]; discriminate|].
      intros [_ H]. lia.
    + apply Z.ltb_ge in E. split; eauto.
  - split; [intros [m H]; discriminate|]. intros [[m H] _]. discriminate.
Qed.

Lemma int_outcome (s : str) :
  (exists n, int s = Return n) \/ int s = Raise ValueError.
Proof.
  unfold int. destruct (signed_digits (strip s)) as [n|]; [|now right].
  destruct (max_str_digits <? count_digits (strip s)); [now right|eauto].
Qed.

Lemma int_raises (s : str) :
  ~ integer_text (strip s) -> int s = Raise ValueError.
Proof.
  intros H. unfold int.
  destruct (signed_digits (strip s)) as [n|] eqn:E; [|reflexivity].
  destruct H. apply signed_digits_accepts. eauto.
Qed.

(** [_to_int] as a total function: what it returns. *)
Lemma to_int_value (x : option str) : _to_int x = Return (parsed x).
Proof.
  unfold parsed. destruct x as [s|]; [|reflexivity].
  unfold _to_int. cbv zeta.
  destruct (str_eqb (strip s) []); [reflexivity|].
  destruct (int_outcome (strip s)) as [[n ->] | ->]; reflexivity.
Qed.

Lemma to_int_integer (s : str) :
  integer_text (strip s) ->
  count_digits (strip s) <= max_str_digits ->
  exists n, _to_int (Some s) = Return (Some n).
Proof.
  intros H Hc. unfold _to_int. cbv zeta.
  destruct (str_eqb (strip s) []) eqn:E.
  - apply str_eqb_eq in E. rewrite E in H.
    inversion H; subst; destruct (digit_run_nil H0).
  - rewrite <- strip_idempotent in H, Hc.
    destruct (proj2 (int_returns (strip s)) (conj H Hc)) as [n ->].
    simpl. eauto.
Qed.

(** C4.  Parsing a numeric range parameter never raises: [_to_int] returns
    for every argument, and what it returns is [None] for the empty string,
    for a string of white space only, and for every string that is not
    integer text; and [None] is no constraint: the filter on a bound that
    is [None] leaves the table as it is. *)
Theorem to_int_never_raises (x : option str) :
  exists v : option Z,
    _to_int x = Return v /\
    (forall s, x = Some s -> strip s = [] -> v = None) /\
    (forall s, x = Some s -> ~ integer_text (strip s) -> v = None) /\
    (v = None ->
     forall col rows,
       min_filter col v rows = rows /\ max_filter col v rows = rows).
Proof.
  assert (Hfree : forall v : option Z, v = None ->
            forall col rows,
              min_filter col v rows = rows /\ max_filter col v rows = rows).
  { intros v -> col rows. split; reflexivity. }
  destruct x as [s|].
  - unfold _to_int. cbv zeta. destruct (str_eqb (strip s) []) eqn:E.
    + exists None. simpl. repeat split; reflexivity.
    + destruct (int (strip s)) as [n|e|] eqn:Ei.
      * exists (Some n). simpl. split; [reflexivity|]. split; [|split].
        -- intros s' Hs Hb. inversion Hs; subst s'.
           rewrite Hb in E. discriminate.
        -- intros s' Hs Hn. inversion Hs; subst s'.
           rewrite <- strip_idempotent in Hn.
           rewrite (int_raises _ Hn) in Ei. discriminate.
        -- apply Hfree.
      * exists None. simpl. repeat split; reflexivity.
      * destruct (int_outcome (strip s)) as [[n Hn] | Hn];
          rewrite Hn in Ei; discriminate.
  - exists None. simpl. split; [reflexivity|].
    split; [|split]; try (intros s H; discriminate). apply Hfree.
Qed.

(** ** Boolean indexing is filtering *)

Lemma boolean_index_map {A : Type} (p : A -> bool) (l : list A) :
  boolean_index l (map p l) = filter p l.
Proof.
  induction l as [|x l IH]; simpl; [reflexivity|].
  rewrite IH. reflexivity.
Qed.

Lemma series_and_map {A : Type} (f g : A -> bool) (l : list A) :
  series_and (map f l) (map g l) = map (fun x => f x && g x) l.
Proof. induction l as [|x l IH]; simpl; [reflexivity | now rewrite IH]. Qed.

Lemma repeat_true_map {A : Type} (l : list A) :
  repeat true (List.length l) = map (fun _ => true) l.
Proof. induction l as [|x l IH]; simpl; [reflexivity | now rewrite IH]. Qed.

Lemma filter_filter {A : Type} (p q : A -> bool) (l : list A) :
  filter p (filter q l) = filter (fun x => q x && p x) l.
Proof.
  induction l as [|x l IH]; simpl; [reflexivity|].
  destruct (q x); simpl; [destruct (p x)|]; rewrite IH; reflexivity.
Qed.

Lemma filter_all {A : Type} (p : A -> bool) (l : list A) :
  (forall x, In x l -> p x = true) -> filter p l = l.
Proof.
  induction l as [|x l IH]; simpl; intros H; [reflexivity|].
  rewrite (H x (or_introl eq_refl)), IH; auto.
Qed.

(** ** The text search *)

Lemma term_loop_eq (terms : list str) :
  forall (rows : DataFrame) (f : row -> bool),
    term_loop (haystack rows) terms (map f rows) =
    (ps <- compile_all terms ;;
     Return (map (fun r => f r && found_all ps r) rows)).
Proof.
  induction terms as [|term terms IH]; intros rows f; simpl.
  - f_equal. apply map_ext. intros r. now rewrite andb_true_r.
  - unfold str_contains. destruct (Re.compile term) as [p| |]; simpl; auto.
    unfold haystack at 2. rewrite map_map, series_and_map, IH.
    destruct (compile_all terms) as [ps| |]; simpl; auto.
    f_equal. apply map_ext. intros r. now rewrite andb_assoc.
Qed.

Lemma terms_of_searched (q : option str) :
  truthy_opt q && truthy (strip (str_of q)) = false -> terms_of q = [].
Proof.
  unfold terms_of. destruct (truthy_opt q); simpl; [|reflexivity].
  destruct (strip (str_of q)); [reflexivity | discriminate].
Qed.

(** Lines 71-86 as one filter: the rows where every compiled term is found;
    a search in a frame without rows fails. *)
Lemma text_search_eq (rows : DataFrame) (q : option str) :
  text_search rows q =
  if searching q && is_empty rows then Raise AttributeError
  else ps <- compile_all (terms_of q) ;; Return (filter (found_all ps) rows).
Proof.
  unfold text_search, searching.
  destruct (truthy_opt q && truthy (strip (str_of q))) eqn:E.
  - destruct rows as [|r rows]; [reflexivity|].
    cbn [andb is_empty haystack_of bind].
    assert (Ht : terms_of q = split (lower (strip (str_of q)))).
    { unfold terms_of. apply andb_true_iff in E. now rewrite (proj1 E). }
    rewrite <- Ht, repeat_true_map, term_loop_eq.
    destruct (compile_all (terms_of q)) as [ps| |]; cbn [bind]; auto.
    now rewrite boolean_index_map.
  - rewrite (terms_of_searched _ E). simpl.
    rewrite filter_all; auto.
Qed.

(** ** [apply_filters] as one filter *)

Lemma equals_filter_eq (col : row -> option str) (value : option str)
  (l : DataFrame) :
  equals_filter col value l = filter (fun r => equals_ok (col r) value) l.
Proof.
  unfold equals_filter, equals_ok.
  destruct value as [[|c v]|]; simpl;
    [rewrite filter_all; auto | apply boolean_index_map | rewrite filter_all; auto].
Qed.

Lemma min_filter_eq (col : row -> option Q) (bound : option str)
  (l : DataFrame) :
  min_filter col (parsed bound) l = filter (fun r => min_ok (col r) bound) l.
Proof.
  unfold min_filter, min_ok. destruct (parsed bound) as [n|].
  - apply boolean_index_map.
  - rewrite filter_all; auto.
Qed.

Lemma max_filter_eq (col : row -> option Q) (bound : option str)
  (l : DataFrame) :
  max_filter col (parsed bound) l = filter (fun r => max_ok (col r) bound) l.
Proof.
  unfold max_filter, max_ok. destruct (parsed bound) as [n|].
  - apply boolean_index_map.
  - rewrite filter_all; auto.
Qed.

(** The outcome of [apply_filters]: a failure when a search is made in a
    table without rows; otherwise that of compiling the terms, and then the
    rows that pass the search and every field constraint, in order. *)
Lemma apply_filters_eq (data : DataFrame) (a : Args.t) :
  apply_filters data a =
  if searching (Args.q a) && is_empty data then Raise AttributeError
  else selected data a.
Proof.
  unfold apply_filters, selected. rewrite text_search_eq.
  destruct (searching (Args.q a) && is_empty data); [reflexivity|].
  destruct (compile_all (terms_of (Args.q a))) as [ps| |]; simpl; auto.
  rewrite !to_int_value. simpl.
  rewrite !min_filter_eq, !max_filter_eq, !equals_filter_eq, !filter_filter.
  f_equal. apply filter_ext. intros r.
  unfold categorical_ok, numeric_ok. now rewrite !andb_assoc.
Qed.

Lemma apply_filters_return (data : DataFrame) (a : Args.t) (kept : DataFrame) :
  apply_filters data a = Return kept ->
  searching (Args.q a) && is_empty data = false /\
  exists ps,
    compile_all (terms_of (Args.q a)) = Return ps /\
    kept = filter (fun r => found_all ps r && categorical_ok a r && numeric_ok a r)
             data.
Proof.
  rewrite apply_filters_eq. unfold selected.
  destruct (searching (Args.q a) && is_empty data); [discriminate|].
  destruct (compile_all (terms_of (Args.q a))) as [ps| |]; simpl;
    try discriminate.
  intros H. inversion H. eauto.
Qed.

Lemma selected_return (data : DataFrame) (a : Args.t) (ps : list (list Re.atom)) :
  compile_all (terms_of (Args.q a)) = Return ps ->
  selected data a =
  Return (filter (fun r => found_all ps r && categorical_ok a r && numeric_ok a r)
            data).
Proof. intros H. unfold selected. now rewrite H. Qed.

(** ** Terms without special characters: the search is a substring test *)

Lemma special_dot (c : ascii) : ascii_eqb c "."%char = true -> Re.special c = true.
Proof. intros H. apply ascii_eqb_eq in H. subst c. reflexivity. Qed.

Lemma repetition_special (c : ascii) :
  Re.repetition c = true -> Re.special c = true.
Proof.
  unfold Re.repetition. rewrite existsb_exists. intros [x [Hin Hx]].
  apply ascii_eqb_eq in Hx. subst x.
  simpl in Hin. destruct Hin as [<- | [<- | [<- | []]]]; reflexivity.
Qed.

Lemma atoms_plain (term : str) :
  plain term = true -> Re.atoms term = Return (map Re.Lit term).
Proof.
  induction term as [|c term IH]; simpl; [reflexivity|].
  rewrite andb_true_iff, negb_true_iff. intros [Hc Ht].
  destruct (ascii_eqb c "."%char) eqn:Hd.
  - rewrite (special_dot _ Hd) in Hc. discriminate.
  - rewrite Hc, (IH Ht). reflexivity.
Qed.

Lemma compile_plain (term : str) :
  plain term = true -> Re.compile term = Return (map Re.Lit term).
Proof.
  intros H. unfold Re.compile. destruct term as [|c term]; [reflexivity|].
  destruct (Re.repetition c) eqn:Hr; [|now apply atoms_plain].
  simpl in H. rewrite (repetition_special _ Hr) in H. discriminate.
Qed.

Lemma match_at_literal (term s : str) :
  Re.match_at (map Re.Lit term) s = startswith s term.
Proof.
  revert s; induction term as [|c term IH]; intros [|x s]; simpl; auto.
  now rewrite IH.
Qed.

Lemma search_literal (term hay : str) :
  Re.search (map Re.Lit term) hay = contains hay term.
Proof.
  induction hay as [|x hay IH]; simpl; rewrite match_at_literal; [reflexivity|].
  now rewrite IH.
Qed.

Lemma compile_all_plain (terms : list str) :
  forallb plain terms = true ->
  compile_all terms = Return (map (map Re.Lit) terms).
Proof.
  induction terms as [|term terms IH]; simpl; [reflexivity|].
  rewrite andb_true_iff. intros [Ht Hs].
  now rewrite (compile_plain _ Ht), (IH Hs).
Qed.

Lemma found_all_literal (terms : list str) (r : row) :
  found_all (map (map Re.Lit) terms) r =
  forallb (fun term => contains (searchable_text r) term) terms.
Proof.
  unfold found_all. induction terms as [|term terms IH]; simpl; [reflexivity|].
  now rewrite search_literal, IH.
Qed.

Lemma selected_plain (data : DataFrame) (a : Args.t) :
  forallb plain (terms_of (Args.q a)) = true ->
  selected data a = Return (filter (satisfies a) data).
Proof.
  intros H. unfold selected. rewrite (compile_all_plain _ H). simpl.
  f_equal. apply filter_ext. intros r.
  unfold satisfies, text_ok. now rewrite found_all_literal.
Qed.

Lemma is_empty_false {A : Type} (l : list A) : l <> [] -> is_empty l = false.
Proof. destruct l; [congruence | reflexivity]. Qed.

Lemma is_empty_in {A : Type} (x : A) (l : list A) : In x l -> is_empty l = false.
Proof. destruct l; [intros [] | reflexivity]. Qed.

Lemma is_empty_true {A : Type} (l : list A) : is_empty l = true -> l = [].
Proof. destruct l; [reflexivity | discriminate]. Qed.

(** When no term of the query holds a special character, [apply_filters]
    on a table that has rows, or without a search, returns exactly the
    records that satisfy the criteria, in table order. *)
Lemma apply_filters_plain (data : DataFrame) (a : Args.t) :
  searching (Args.q a) && is_empty data = false ->
  forallb plain (terms_of (Args.q a)) = true ->
  apply_filters data a = Return (filter (satisfies a) data).
Proof.
  intros He H. rewrite apply_filters_eq, He. now apply selected_plain.
Qed.

(** C1.  The term [t.y] is no substring of the text of the Camry record
    (toyota camry sedan petrol fwd automatic), yet [apply_filters] keeps
    the record: the term is read as a regular expression, whose dot stands
    for the letter o.  The record is in the result and violates the text
    constraint of the criteria. *)
Theorem filter_keeps_record_without_term :
  apply_filters [Sample.camry] (Sample.query "t.y") = Return [Sample.camry] /\
  contains (searchable_text Sample.camry) (lit "t.y") = false /\
  satisfies (Sample.query "t.y") Sample.camry = false.
Proof. vm_compute. repeat split. Qed.

(** A query that starts with a repetition operator makes [apply_filters]
    raise instead of returning a table. *)
Lemma filter_raises_on_repetition :
  apply_filters Sample.table (Sample.query "+") = Raise ReError.
Proof. reflexivity. Qed.

(** C2, as stated, fails in both directions.  The query [kiario] is a
    substring of the concatenation kiariosedan... of the Rio record, and
    the text filter drops the record, because the fields are joined by
    blanks.  The query [t.y] is no substring of the text of the Camry
    record, and the text filter keeps it. *)
Lemma text_filter_is_not_concatenation_test :
  (text_search [Sample.rio] (Some (lit "kiario")) = Return [] /\
   spec_text_ok (lit "kiario") Sample.rio = true) /\
  (text_search [Sample.camry] (Some (lit "t.y")) = Return [Sample.camry] /\
   spec_text_ok (lit "t.y") Sample.camry = false).
Proof. vm_compute. repeat split. Qed.

(** C2, amended.  For a non-empty query whose terms hold no special
    character of regular expressions, the text filter returns, and it keeps
    a record of the table if and only if every white-space separated term
    of the lowercased query is a substring of the lowercased text made of
    the record's brand, model, body_type, fuel_type, drive_type and
    transmission joined by single blanks, a missing field counting as the
    text nan. *)
Theorem text_filter_plain_terms (rows : DataFrame) (q : str) (r : row) :
  q <> [] ->
  forallb plain (split (lower (strip q))) = true ->
  In r rows ->
  exists kept,
    text_search rows (Some q) = Return kept /\
    (In r kept <->
     forall term, In term (split (lower (strip q))) ->
       exists pre post,
         lower (join (lit " ")
                  (map astype_str
                     [brand r; model r; body_type r;
                      fuel_type r; drive_type r; transmission r]))
         = pre ++ term ++ post).
Proof.
  intros Hq Hplain Hin.
  assert (Ht : terms_of (Some q) = split (lower (strip q))).
  { unfold terms_of. destruct q; [congruence | reflexivity]. }
  exists (filter (text_ok (Some q)) rows). split.
  - rewrite text_search_eq, (is_empty_in _ _ Hin), andb_false_r.
    rewrite Ht, (compile_all_plain _ Hplain). simpl.
    f_equal. apply filter_ext. intros x. unfold text_ok.
    now rewrite Ht, found_all_literal.
  - rewrite filter_In. unfold text_ok. rewrite Ht, forallb_forall. split.
    + intros [_ H] term Hterm. apply contains_iff. exact (H term Hterm).
    + intros H. split; [exact Hin|].
      intros term Hterm. apply contains_iff. exact (H term Hterm).
Qed.

Lemma text_filter_plain_terms_witness :
  exists kept,
    text_search Sample.table (Some (lit "Toyota cam")) = Return kept /\
    (In Sample.camry kept <->
     forall term, In term (split (lower (strip (lit "Toyota cam")))) ->
       exists pre post,
         lower (join (lit " ")
                  (map astype_str
                     [brand Sample.camry; model Sample.camry;
                      body_type Sample.camry; fuel_type Sample.camry;
                      drive_type Sample.camry; transmission Sample.camry]))
         = pre ++ term ++ post).
Proof.
  apply (text_filter_plain_terms Sample.table (lit "Toyota cam") Sample.camry).
  - discriminate.
  - reflexivity.
  - simpl. auto.
Defined.

(** C3.  A record whose year (horsepower, price_usd) is null is in no
    result of [apply_filters] for criteria that set a lower or an upper
    bound on that field. *)
Theorem null_field_fails_every_bound (data : DataFrame) (a : Args.t)
  (r : row) (kept : DataFrame) :
  apply_filters data a = Return kept ->
  (year r = None /\
     (parsed (Args.year_min a) <> None \/ parsed (Args.year_max a) <> None)) \/
  (horsepower r = None /\
     (parsed (Args.hp_min a) <> None \/ parsed (Args.hp_max a) <> None)) \/
  (price_usd r = None /\
     (parsed (Args.price_min a) <> None \/ parsed (Args.price_max a) <> None)) ->
  ~ In r kept.
Proof.
  intros H Hnull Hin.
  apply apply_filters_return in H. destruct H as [_ [ps [_ ->]]].
  apply filter_In in Hin. destruct Hin as [_ Hok].
  apply andb_true_iff in Hok. destruct Hok as [_ Hnum].
  unfold numeric_ok in Hnum. rewrite !andb_true_iff in Hnum.
  destruct Hnum as [[[[[H1 H2] H3] H4] H5] H6].
  unfold min_ok, max_ok in *.
  destruct Hnull as [[E [B | B]] | [[E [B | B]] | [E [B | B]]]];
    rewrite E in *;
    match goal with
    | B : parsed ?x <> None |- _ => destruct (parsed x); [|congruence]
    end; simpl in *; discriminate.
Qed.

Lemma null_field_fails_every_bound_witness :
  apply_filters Sample.table (Sample.year_from "2021") = Return [Sample.corolla] /\
  year Sample.bare = None /\
  ~ In Sample.bare [Sample.corolla].
Proof.
  split; [reflexivity|]. split; [reflexivity|].
  apply (null_field_fails_every_bound Sample.table (Sample.year_from "2021")
           Sample.bare [Sample.corolla]).
  - reflexivity.
  - left. split; [reflexivity|]. left. discriminate.
Defined.

(** ** Recommendations *)

Lemma filter_none {A : Type} (p : A -> bool) (l : list A) :
  (forall x, In x l -> p x = false) -> filter p l = [].
Proof.
  induction l as [|x l IH]; simpl; intros H; [reflexivity|].
  rewrite (H x (or_introl eq_refl)). apply IH. auto.
Qed.

Lemma recommend_eq (df : DataFrame) (car_id : Z) :
  recommend df car_id =
  match filter (fun r => id r =? car_id) df with
  | [] => NotFound
  | car :: _ =>
      Rendered car (filter (similar_mask car car_id) df)
        (filter (price_range_mask car car_id) df)
  end.
Proof.
  unfold recommend. rewrite boolean_index_map.
  destruct (filter (fun r => id r =? car_id) df) as [|car l]; [reflexivity|].
  now rewrite !boolean_index_map.
Qed.

(** The reference record is a record of the table that carries the id. *)
Lemma reference_in (df : DataFrame) (car_id : Z) (car : row) :
  reference df car_id = Some car -> In car df /\ id car = car_id.
Proof.
  unfold reference. rewrite recommend_eq.
  destruct (filter (fun r => id r =? car_id) df) as [|c l] eqn:E;
    [discriminate|].
  intros H; inversion H; subst c.
  assert (Hin : In car (filter (fun r => id r =? car_id) df))
    by (rewrite E; left; reflexivity).
  apply filter_In in Hin. destruct Hin as [Hin Hid].
  split; [exact Hin | now apply Z.eqb_eq].
Qed.

(** An id of the table is found: the answer is no 404. *)
Lemma reference_found (df : DataFrame) (car_id : Z) :
  (exists r, In r df /\ id r = car_id) ->
  exists car, reference df car_id = Some car.
Proof.
  intros [r [Hin Hid]]. unfold reference. rewrite recommend_eq.
  destruct (filter (fun r => id r =? car_id) df) as [|c l] eqn:E; [|eauto].
  assert (H : In r (filter (fun r => id r =? car_id) df)).
  { apply filter_In. split; [exact Hin | now apply Z.eqb_eq]. }
  rewrite E in H. destruct H.
Qed.

Lemma similar_eq (df : DataFrame) (car_id : Z) (car : row) :
  reference df car_id = Some car ->
  similar_by_attributes df car_id = Some (filter (similar_mask car car_id) df) /\
  similar_by_price df car_id = Some (filter (price_range_mask car car_id) df).
Proof.
  unfold reference, similar_by_attributes, similar_by_price.
  rewrite recommend_eq.
  destruct (filter (fun r => id r =? car_id) df) as [|c l]; [discriminate|].
  intros H; inversion H; subst c. split; reflexivity.
Qed.

Lemma cell_eq_cell_true (cell other : option str) :
  cell_eq_cell cell other = true -> cell = other.
Proof.
  destruct other as [v|]; [|discriminate].
  destruct cell as [s|]; [|discriminate].
  simpl. intros H. apply str_eqb_eq in H. now subst.
Qed.

Lemma between_nan_bound (x left right : option Q) :
  left = None \/ right = None -> between x left right = false.
Proof.
  intros [-> | ->]; destruct x; simpl; auto. destruct left; reflexivity.
Qed.

(** C5.  For an id of the table, the records similar by attributes never
    include a record with that id, nor a record whose brand or body_type
    differs from that of the reference record. *)
Theorem similar_excludes_self_and_other_brands (df : DataFrame) (car_id : Z) :
  (exists r0, In r0 df /\ id r0 = car_id) ->
  exists car similar,
    reference df car_id = Some car /\
    similar_by_attributes df car_id = Some similar /\
    forall r, In r similar ->
      id r <> car_id /\
      brand r = brand car /\
      body_type r = body_type car.
Proof.
  intros Hpresent.
  destruct (reference_found df car_id Hpresent) as [car Hcar].
  destruct (similar_eq _ _ _ Hcar) as [Hsim _].
  exists car, (filter (similar_mask car car_id) df).
  split; [exact Hcar|]. split; [exact Hsim|].
  intros r Hr. apply filter_In in Hr. destruct Hr as [_ Hm].
  unfold similar_mask in Hm. rewrite !andb_true_iff in Hm.
  destruct Hm as [[[[Hb Hbt] _] _] Hid].
  split; [|split].
  - apply negb_true_iff, Z.eqb_neq in Hid. exact Hid.
  - now apply cell_eq_cell_true.
  - now apply cell_eq_cell_true.
Qed.

Lemma similar_excludes_self_and_other_brands_witness :
  exists car similar,
    reference Sample.table 1 = Some car /\
    similar_by_attributes Sample.table 1 = Some similar /\
    forall r, In r similar ->
      id r <> 1 /\
      brand r = brand car /\
      body_type r = body_type car.
Proof.
  apply (similar_excludes_self_and_other_brands Sample.table 1).
  exists Sample.camry. split; [simpl; auto | reflexivity].
Defined.

(** C6.  When the reference record has a null year or a null horsepower,
    the records similar by attributes are the empty sequence; when it has a
    null price_usd, so are the records similar by price.  Both are
    returned: nothing is raised. *)
Theorem null_reference_gives_no_recommendation (df : DataFrame) (car_id : Z)
  (car : row) :
  reference df car_id = Some car ->
  (year car = None \/ horsepower car = None ->
   similar_by_attributes df car_id = Some []) /\
  (price_usd car = None -> similar_by_price df car_id = Some []).
Proof.
  intros Hcar. destruct (similar_eq _ _ _ Hcar) as [Hsim Hprice].
  rewrite Hsim, Hprice. split.
  - intros Hnull. f_equal. apply filter_none. intros r _.
    unfold similar_mask.
    destruct Hnull as [E | E]; rewrite E; simpl.
    + rewrite (between_nan_bound (year r) None None (or_introl eq_refl)).
      now rewrite ?andb_false_r.
    + rewrite (between_nan_bound (horsepower r) None None (or_introl eq_refl)).
      now rewrite ?andb_false_r.
  - intros E. f_equal. apply filter_none. intros r _.
    unfold price_range_mask. rewrite E. simpl.
    now rewrite (between_nan_bound (price_usd r) None None (or_introl eq_refl)).
Qed.

Lemma null_reference_gives_no_recommendation_witness :
  reference Sample.table 5 = Some Sample.bare /\
  (year Sample.bare = None \/ horsepower Sample.bare = None ->
   similar_by_attributes Sample.table 5 = Some []) /\
  (price_usd Sample.bare = None -> similar_by_price Sample.table 5 = Some []).
Proof.
  split; [reflexivity|].
  apply (null_reference_gives_no_recommendation Sample.table 5 Sample.bare).
  reflexivity.
Defined.

(** ** Favourites *)

Lemma list_in_iff (x : Z) (l : list Z) : list_in x l = true <-> In x l.
Proof.
  unfold list_in. rewrite existsb_exists. split.
  - intros [y [Hy E]]. apply Z.eqb_eq in E. now subst.
  - intros H. exists x. split; [exact H | apply Z.eqb_refl].
Qed.

Lemma list_remove_subset (x y : Z) (l : list Z) :
  In y (list_remove x l) -> In y l.
Proof.
  induction l as [|z l IH]; simpl; [tauto|].
  destruct (z =? x); simpl; tauto.
Qed.

(** In a list without repetition, [remove] takes the element out. *)
Lemma list_remove_nodup (x y : Z) (l : list Z) :
  NoDup l -> (In y (list_remove x l) <-> In y l /\ y <> x).
Proof.
  induction 1 as [|z l Hz Hl IH]; simpl; [tauto|].
  destruct (z =? x) eqn:E.
  - apply Z.eqb_eq in E. subst z. split.
    + intros H. split; [now right | intros ->; contradiction].
    + intros [[-> | H] Hne]; [congruence | exact H].
  - apply Z.eqb_neq in E. simpl. rewrite IH. split.
    + intros [-> | [H Hne]]; [split; [now left | exact E] | split; [now right | exact Hne]].
    + intros [[-> | H] Hne]; [now left | right; tauto].
Qed.

Lemma list_remove_keeps_nodup (x : Z) (l : list Z) :
  NoDup l -> NoDup (list_remove x l).
Proof.
  induction 1 as [|z l Hz Hl IH]; simpl; [constructor|].
  destruct (z =? x); [exact Hl|].
  constructor; [|exact IH].
  intros H. apply Hz. eapply list_remove_subset; eauto.
Qed.

Lemma nodup_append (x : Z) (l : list Z) :
  NoDup l -> ~ In x l -> NoDup (l ++ [x]).
Proof.
  induction 1 as [|z l Hz Hl IH]; simpl; intros Hx.
  - constructor; [tauto | constructor].
  - constructor.
    + rewrite in_app_iff. simpl. intros [H | [H | []]]; [tauto | subst; tauto].
    + apply IH. tauto.
Qed.

Lemma list_remove_appended (x : Z) (l : list Z) :
  ~ In x l -> list_remove x (l ++ [x]) = l.
Proof.
  induction l as [|z l IH]; simpl; intros H.
  - now rewrite Z.eqb_refl.
  - destruct (z =? x) eqn:E.
    + apply Z.eqb_eq in E. tauto.
    + rewrite IH; tauto.
Qed.

(** The favourites of a session never hold an id twice. *)
Lemma session_state_nodup (favorites : list Z) :
  session_state favorites -> NoDup favorites.
Proof.
  induction 1 as [|favorites car_id _ IH]; [constructor|].
  unfold toggled. destruct (list_in car_id favorites) eqn:E.
  - now apply list_remove_keeps_nodup.
  - apply nodup_append; [exact IH|].
    rewrite <- list_in_iff, E. discriminate.
Qed.

(** The list logic of lines 198-201 on the favourites a session can hold: a
    toggle removes the id when it is present and adds it when it is absent,
    leaving the other ids as they are; toggling the same id twice gives
    back the set of favourites the session started from. *)
Lemma toggled_twice (favorites : list Z) (car_id : Z) :
  session_state favorites ->
  (In car_id (toggled favorites car_id) <-> ~ In car_id favorites) /\
  (forall x, x <> car_id ->
     (In x (toggled favorites car_id) <-> In x favorites)) /\
  (forall x,
     In x (toggled (toggled favorites car_id) car_id) <->
     In x favorites).
Proof.
  intros Hs. pose proof (session_state_nodup _ Hs) as Hnd.
  assert (Hone : (In car_id (toggled favorites car_id) <->
                  ~ In car_id favorites) /\
                 (forall x, x <> car_id ->
                    (In x (toggled favorites car_id) <-> In x favorites))).
  { unfold toggled. destruct (list_in car_id favorites) eqn:E.
    - apply list_in_iff in E. split.
      + rewrite (list_remove_nodup car_id car_id _ Hnd). tauto.
      + intros x Hx. rewrite (list_remove_nodup car_id x _ Hnd). tauto.
    - assert (Hn : ~ In car_id favorites)
        by (rewrite <- list_in_iff, E; discriminate).
      split.
      + rewrite in_app_iff. simpl. tauto.
      + intros x Hx. rewrite in_app_iff. simpl. split; [|tauto].
        intros [H | [H | []]]; [exact H | congruence]. }
  destruct Hone as [Hself Hother]. split; [exact Hself|]. split; [exact Hother|].
  intros x. unfold toggled at 2.
  destruct (list_in car_id favorites) eqn:E.
  - assert (Hin : In car_id favorites) by now apply list_in_iff.
    assert (Hout : list_in car_id (list_remove car_id favorites) = false).
    { destruct (list_in car_id (list_remove car_id favorites)) eqn:E'; auto.
      apply list_in_iff, (list_remove_nodup car_id car_id _ Hnd) in E'. tauto. }
    unfold toggled. rewrite Hout, in_app_iff.
    rewrite (list_remove_nodup car_id x _ Hnd). simpl.
    destruct (Z.eq_dec x car_id) as [-> | Hne]; intuition congruence.
  - assert (Hn : ~ In car_id favorites)
      by (rewrite <- list_in_iff, E; discriminate).
    assert (Hnow : list_in car_id (favorites ++ [car_id]) = true).
    { apply list_in_iff, in_app_iff. right. now left. }
    unfold toggled. rewrite Hnow, (list_remove_appended _ _ Hn). tauto.
Qed.

(** With a secret key the assignment of line 203 stores the list. *)
Lemma toggle_session_with_key (key : option str) (stored : list Z) (car_id : Z) :
  truthy_opt key = true ->
  toggle_session key stored car_id = Return (toggled stored car_id).
Proof. intros H. unfold toggle_session, session_set. now rewrite H. Qed.

Lemma toggle_session_without_key (key : option str) (stored : list Z)
  (car_id : Z) :
  truthy_opt key = false ->
  toggle_session key stored car_id = Raise RuntimeError.
Proof. intros H. unfold toggle_session, session_set. now rewrite H. Qed.

Lemma stored_after_cases (key : option str) (stored : list Z) (car_id : Z) :
  stored_after key stored car_id =
  if truthy_opt key then toggled stored car_id else stored.
Proof.
  unfold stored_after, toggle_session, session_set.
  now destruct (truthy_opt key).
Qed.

(** What a session can hold stays what a session can hold, with or without
    a secret key. *)
Lemma stored_after_state (key : option str) (stored : list Z) (car_id : Z) :
  session_state stored -> session_state (stored_after key stored car_id).
Proof.
  intros H. rewrite stored_after_cases.
  destruct (truthy_opt key); [now constructor | exact H].
Qed.

(** C7.  As app.py is written, a toggle stores nothing: the application has
    no secret key, so the assignment of line 203 raises RuntimeError in
    every request to the handler, whatever the session held and whatever
    the id.  The session is left as it was, and after the toggle of an id
    on a new session the id is not among the favourites. *)
Theorem toggle_favorite_stores_nothing
  (urlparse : str -> result ParseResult) (index_url : str)
  (stored : list Z) (car_id : Z) (next referrer : option str) :
  toggle_favorite secret_key urlparse index_url stored car_id next referrer
  = Raise RuntimeError /\
  stored_after secret_key stored car_id = stored /\
  ~ In car_id (stored_after secret_key [] car_id).
Proof.
  split; [reflexivity|]. split; [reflexivity|]. intros [].
Qed.

(** ** Search suggestions *)

(** The limit: always returned; 8 when the parameter is absent or [int]
    refuses it, and the integer it stands for brought into 1..20
    otherwise. *)
Lemma search_limit_range (limit : option str) :
  exists n,
    search_limit limit = Return n /\ 1 <= n <= 20 /\
    (limit = None -> n = 8) /\
    (forall s, limit = Some s -> ~ integer_text (strip s) -> n = 8) /\
    (forall s, limit = Some s -> int s = Raise ValueError -> n = 8) /\
    (forall s k, limit = Some s -> int s = Return k ->
       n = Z.max 1 (Z.min 20 k)).
Proof.
  unfold search_limit. destruct limit as [s|]; simpl.
  - destruct (int_outcome s) as [[k Hk] | Hr].
    + rewrite Hk. simpl. exists (Z.max 1 (Z.min 20 k)).
      split; [reflexivity|]. split; [lia|]. split; [discriminate|].
      split; [|split].
      * intros s' Hs Hn. inversion Hs; subst s'.
        rewrite (int_raises _ Hn) in Hk. discriminate.
      * intros s' Hs Hn. inversion Hs; subst s'. congruence.
      * intros s' k' Hs Hn. inversion Hs; subst s'. congruence.
    + rewrite Hr. simpl. exists 8.
      split; [reflexivity|]. split; [lia|]. split; [discriminate|].
      split; [auto|]. split; [auto|].
      intros s' k' Hs Hn. inversion Hs; subst s'. congruence.
  - exists 8. split; [reflexivity|]. split; [lia|]. split; [auto|].
    split; [discriminate|]. split; discriminate.
Qed.

Lemma priced_in (p : Q) (r : row) (rows : DataFrame) :
  In (p, r) (priced rows) <-> In r rows /\ price_usd r = Some p.
Proof.
  unfold priced. rewrite in_flat_map. split.
  - intros [x [Hx Hin]]. destruct (price_usd x) as [px|] eqn:E; [|destruct Hin].
    destruct Hin as [H | []]. inversion H; subst. auto.
  - intros [Hin E]. exists r. split; [exact Hin|]. rewrite E. now left.
Qed.

Lemma unpriced_in (r : row) (rows : DataFrame) :
  In r (unpriced rows) <-> In r rows /\ price_usd r = None.
Proof.
  unfold unpriced. rewrite filter_In.
  destruct (price_usd r); split; intros [H1 H2]; split; auto; discriminate.
Qed.

Lemma priced_unpriced_perm (rows : DataFrame) :
  Permutation (map snd (priced rows) ++ unpriced rows) rows.
Proof.
  induction rows as [|r rows IH]; simpl; [constructor|].
  destruct (price_usd r) as [p|]; simpl.
  - now constructor.
  - apply Permutation_sym, Permutation_cons_app, Permutation_sym, IH.
Qed.

Lemma firstn_subset {A : Type} (n : nat) (l : list A) (x : A) :
  In x (firstn n l) -> In x l.
Proof.
  revert l; induction n as [|n IH]; intros [|y l]; simpl; try tauto.
  intros [H | H]; [now left | right; now apply IH].
Qed.

Lemma firstn_sorted {A : Type} (R : A -> A -> Prop) (n : nat) (l : list A) :
  StronglySorted R l -> StronglySorted R (firstn n l).
Proof.
  revert l; induction n as [|n IH]; intros l H; [constructor|].
  destruct H as [|x l Hl Hx]; simpl; constructor.
  - now apply IH.
  - rewrite Forall_forall in *. intros y Hy. apply Hx.
    eapply firstn_subset; eauto.
Qed.

Lemma app_sorted {A : Type} (R : A -> A -> Prop) (l1 l2 : list A) :
  StronglySorted R l1 -> StronglySorted R l2 ->
  (forall a b, In a l1 -> In b l2 -> R a b) ->
  StronglySorted R (l1 ++ l2).
Proof.
  induction 1 as [|x l1 Hl1 IH Hx]; simpl; intros H2 Hc; [exact H2|].
  constructor.
  - apply IH; [exact H2|]. intros a b Ha Hb. apply Hc; [now right | exact Hb].
  - rewrite Forall_forall in *. intros y Hy. apply in_app_iff in Hy.
    destruct Hy as [Hy | Hy]; [now apply Hx | apply Hc; [now left | exact Hy]].
Qed.

Lemma map_sorted {A B : Type} (R : A -> A -> Prop) (S : B -> B -> Prop)
  (f : A -> B) (l : list A) :
  (forall a b, In a l -> In b l -> R a b -> S (f a) (f b)) ->
  StronglySorted R l -> StronglySorted S (map f l).
Proof.
  intros Hf H. induction H as [|x l Hl IH Hx]; simpl; constructor.
  - apply IH. intros a b Ha Hb. apply Hf; now right.
  - rewrite Forall_forall in *. intros y Hy. apply in_map_iff in Hy.
    destruct Hy as [a [<- Ha]]. apply Hf; [now left | now right | now apply Hx].
Qed.

Lemma unpriced_sorted (rows : DataFrame) :
  StronglySorted (fun a b => ascending (price_usd a) (price_usd b))
    (unpriced rows).
Proof.
  assert (H : forall l, (forall r, In r l -> price_usd r = None) ->
            StronglySorted (fun a b => ascending (price_usd a) (price_usd b)) l).
  { induction l as [|x l IH]; intros Hn; constructor.
    - apply IH. intros r Hr. apply Hn. now right.
    - rewrite Forall_forall. intros y _.
      rewrite (Hn x (or_introl eq_refl)). exact I. }
  apply H. intros r Hr. now apply unpriced_in in Hr.
Qed.

(** A list of priced records followed by records without a price: after a
    record without a price only such records follow. *)
Lemma nulls_last_split {A : Type} (P : A -> Prop) (l1 l2 before after : list A)
  (x : A) :
  (forall a, In a l1 -> P a) -> (forall b, In b l2 -> ~ P b) ->
  l1 ++ l2 = before ++ x :: after -> ~ P x ->
  forall y, In y after -> ~ P y.
Proof.
  revert before. induction l1 as [|a l1 IH]; simpl; intros before H1 H2 E Hx y Hy.
  - apply H2. rewrite E. apply in_app_iff. right. now right.
  - destruct before as [|b before]; simpl in E; inversion E; subst.
    + destruct Hx. apply H1. now left.
    + apply (IH before); auto.
Qed.

(** *** The sorting routine used to run the handler *)

Lemma insert_by_price_perm (x : Q * row) (l : list (Q * row)) :
  Permutation (insert_by_price x l) (x :: l).
Proof.
  induction l as [|y l IH]; simpl; [reflexivity|].
  destruct (Qle_bool (fst x) (fst y)); [reflexivity|].
  rewrite IH. apply perm_swap.
Qed.

Lemma insertion_sort_perm (l : list (Q * row)) :
  Permutation (insertion_sort l) l.
Proof.
  induction l as [|x l IH]; simpl; [constructor|].
  rewrite insert_by_price_perm. now constructor.
Qed.

Lemma insert_by_price_sorted (x : Q * row) (l : list (Q * row)) :
  StronglySorted key_le l -> StronglySorted key_le (insert_by_price x l).
Proof.
  induction 1 as [|y l Hl IH Hy]; simpl.
  - constructor; [constructor | constructor].
  - destruct (Qle_bool (fst x) (fst y)) eqn:E.
    + apply Qle_bool_iff in E. constructor; [now constructor|].
      constructor; [exact E|].
      rewrite Forall_forall in *. intros z Hz.
      unfold key_le in *. eapply Qle_trans; [exact E | now apply Hy].
    + constructor; [exact IH|].
      rewrite Forall_forall in *. intros z Hz.
      apply (Permutation_in _ (insert_by_price_perm x l)) in Hz.
      destruct Hz as [<- | Hz]; [|now apply Hy].
      unfold key_le. apply Qlt_le_weak, Qnot_le_lt.
      intros Hle. apply Qle_bool_iff in Hle. congruence.
Qed.

Lemma insertion_sort_sorted (l : list (Q * row)) :
  StronglySorted key_le (insertion_sort l).
Proof.
  induction l as [|x l IH]; simpl; [constructor|].
  now apply insert_by_price_sorted.
Qed.

(** *** The handler, for any sorting routine

    [argsort] stands for the routine pandas sorts the prices with.  All
    that is used of it: its output is a rearrangement of its input, in
    ascending order of the keys. *)

Section AnySortingRoutine.

Variable argsort : list (Q * row) -> list (Q * row).
Hypothesis argsort_perm : forall l, Permutation (argsort l) l.
Hypothesis argsort_sorted : forall l, StronglySorted key_le (argsort l).

Lemma sort_values_perm (rows : DataFrame) :
  Permutation (sort_values argsort rows) rows.
Proof.
  unfold sort_values.
  rewrite (Permutation_map snd (argsort_perm (priced rows))).
  apply priced_unpriced_perm.
Qed.

Lemma argsort_keys (rows : DataFrame) (p : Q) (r : row) :
  In (p, r) (argsort (priced rows)) -> In r rows /\ price_usd r = Some p.
Proof.
  intros H. apply (Permutation_in _ (argsort_perm (priced rows))) in H.
  now apply priced_in.
Qed.

Lemma sort_values_sorted (rows : DataFrame) :
  StronglySorted (fun a b => ascending (price_usd a) (price_usd b))
    (sort_values argsort rows).
Proof.
  unfold sort_values. apply app_sorted.
  - apply (map_sorted key_le); [|apply argsort_sorted].
    intros [p a] [p' b] Ha Hb Hle.
    apply argsort_keys in Ha. apply argsort_keys in Hb. simpl.
    rewrite (proj2 Ha), (proj2 Hb). exact Hle.
  - apply unpriced_sorted.
  - intros a b _ Hb. apply unpriced_in in Hb.
    rewrite (proj2 Hb). destruct (price_usd a); exact I.
Qed.

Lemma api_search_eq (df : DataFrame) (args : search_request) (n : Z) :
  search_limit (arg_limit args) = Return n ->
  api_search argsort df args =
  if (Z.of_nat (List.length (strip (or_empty (arg_q args)))) <? 2) &&
     negb (truthy (strip (or_empty (arg_brand args))))
  then Return []
  else
    matching <- apply_filters df
                  (search_criteria (strip (or_empty (arg_q args)))
                     (strip (or_empty (arg_brand args)))) ;;
    Return (map cols (head n (sort_values argsort matching))).
Proof.
  intros Hn. unfold api_search, api_search_rows. cbv zeta. rewrite Hn. simpl.
  destruct ((Z.of_nat (List.length (strip (or_empty (arg_q args)))) <? 2) &&
            negb (truthy (strip (or_empty (arg_brand args))))); [reflexivity|].
  destruct (apply_filters df _); reflexivity.
Qed.

Lemma firstn_reaches {A : Type} (n : nat) (before after : list A) (x : A) :
  (List.length before < n)%nat -> In x (firstn n (before ++ x :: after)).
Proof.
  revert n. induction before as [|y before IH]; intros [|n] H; simpl in *;
    try lia.
  - now left.
  - right. apply IH. lia.
Qed.

Lemma priced_length (rows : DataFrame) :
  (List.length (priced rows) + List.length (unpriced rows)
   = List.length rows)%nat.
Proof.
  induction rows as [|r rows IH]; simpl; [reflexivity|].
  destruct (price_usd r); simpl; lia.
Qed.

Lemma unpriced_app (l1 l2 : DataFrame) :
  unpriced (l1 ++ l2) = unpriced l1 ++ unpriced l2.
Proof. unfold unpriced. apply filter_app. Qed.

(** The text search of the handler is made for every stripped query that
    is not empty. *)
Lemma searching_stripped (x : str) :
  searching (Some (strip x)) = truthy (strip x).
Proof.
  unfold searching. cbn [truthy_opt str_of]. rewrite strip_idempotent.
  apply andb_diag.
Qed.


(** C10.  In every answer of the handler, after an entry whose price_usd is
    null only entries with a null price_usd follow: each record with a
    price comes before every record without one.  And a matching record
    without a price is not left out for that: it is in the answer as soon
    as the limit leaves room for it after the matching records that have a
    price and the records without a price that the filter returned before
    it; sorting itself drops no record. *)
Theorem null_prices_sort_last :
  (forall rows r, In r rows -> In r (sort_values argsort rows)) /\
  (forall df args answer,
     api_search argsort df args = Return answer ->
     forall before x after,
       answer = before ++ x :: after ->
       s_price_usd x = None ->
       forall y, In y after -> s_price_usd y = None) /\
  (forall df args limit earlier r later,
     (2 <= List.length (strip (or_empty (arg_q args))))%nat \/
     strip (or_empty (arg_brand args)) <> [] ->
     search_limit (arg_limit args) = Return limit ->
     apply_filters df
       (search_criteria (strip (or_empty (arg_q args)))
          (strip (or_empty (arg_brand args))))
     = Return (earlier ++ r :: later) ->
     price_usd r = None ->
     (List.length (priced (earlier ++ r :: later)) +
      List.length (unpriced earlier) < Z.to_nat limit)%nat ->
     exists answer,
       api_search argsort df args = Return answer /\
       In (cols r) answer /\
       forall m p, In m (earlier ++ r :: later) -> price_usd m = Some p ->
         exists before after,
           answer = before ++ cols r :: after /\ In (cols m) before).
Proof.
  split; [|split].
  - intros rows r Hr.
    now apply (Permutation_in _ (Permutation_sym (sort_values_perm rows))).
  - intros df args answer Hans before x after E Hx y Hy.
    destruct (search_limit_range (arg_limit args)) as [n [Hn _]].
    rewrite (api_search_eq df args n Hn) in Hans.
    destruct ((Z.of_nat (List.length (strip (or_empty (arg_q args)))) <? 2) &&
              negb (truthy (strip (or_empty (arg_brand args))))).
    { inversion Hans; subst answer. destruct before; discriminate. }
    destruct (apply_filters df _) as [matching| |]; simpl in Hans;
      try discriminate.
    inversion Hans as [Ha]. rewrite E in Ha. clear Hans E.
    unfold head, sort_values in Ha. rewrite firstn_app, map_app in Ha.
    assert (Hy' : ~ (exists p, s_price_usd y = Some p)).
    { eapply (nulls_last_split (fun s => exists p, s_price_usd s = Some p));
        [| |exact Ha| |exact Hy].
      - intros s Hs. apply in_map_iff in Hs. destruct Hs as [r [<- Hr]].
        apply firstn_subset, in_map_iff in Hr. destruct Hr as [[p r'] [<- Hr]].
        apply argsort_keys in Hr. simpl. exists p. exact (proj2 Hr).
      - intros s Hs [p Hp]. apply in_map_iff in Hs. destruct Hs as [r [<- Hr]].
        apply firstn_subset, unpriced_in in Hr. simpl in Hp.
        rewrite (proj2 Hr) in Hp. discriminate.
      - rewrite Hx. intros [p Hp]. discriminate. }
    destruct (s_price_usd y) as [p|]; [destruct Hy'; eauto | reflexivity].
  - intros df args n earlier r later Hlong Hn Hm Hnull Hroom.
    rewrite (api_search_eq df args n Hn).
    assert (Hshort : (Z.of_nat (List.length (strip (or_empty (arg_q args)))) <? 2)
                     && negb (truthy (strip (or_empty (arg_brand args)))) = false).
    { destruct Hlong as [Hq | Hb].
      - assert (E : (Z.of_nat (List.length (strip (or_empty (arg_q args)))) <? 2)
                    = false) by (apply Z.ltb_ge; lia).
        now rewrite E.
      - destruct (strip (or_empty (arg_brand args))); [congruence|].
        apply andb_false_r. }
    rewrite Hshort, Hm. simpl. eexists. split; [reflexivity|].
    set (matching := earlier ++ r :: later) in *.
    set (cheap := map snd (argsort (priced matching))).
    assert (Hsplit : sort_values argsort matching
                     = (cheap ++ unpriced earlier) ++ r :: unpriced later).
    { unfold sort_values. fold cheap. unfold matching at 1.
      rewrite unpriced_app. simpl. rewrite Hnull. now rewrite <- app_assoc. }
    assert (Hlen : (List.length (cheap ++ unpriced earlier) < Z.to_nat n)%nat).
    { unfold cheap.
      rewrite length_app, length_map, (Permutation_length (argsort_perm _)).
      exact Hroom. }
    unfold head. rewrite Hsplit. split.
    + apply in_map, firstn_reaches, Hlen.
    + intros m p Hin Hp.
      rewrite firstn_app.
      rewrite (firstn_all2 (cheap ++ unpriced earlier)) by lia.
      destruct (Z.to_nat n - List.length (cheap ++ unpriced earlier))%nat
        as [|k] eqn:Ek; [lia|].
      simpl. rewrite map_app. simpl.
      exists (map cols (cheap ++ unpriced earlier)), (map cols (firstn k (unpriced later))).
      split; [reflexivity|].
      apply in_map, in_app_iff. left. unfold cheap.
      apply in_map_iff. exists (p, m). split; [reflexivity|].
      apply (Permutation_in _ (Permutation_sym (argsort_perm _))).
      apply priced_in. split; [exact Hin | exact Hp].
Qed.

End AnySortingRoutine.


Lemma null_prices_sort_last_witness :
  api_search insertion_sort Sample.unsorted (search_request_of "to")
  = Return (map cols [Sample.rio; Sample.camry; Sample.bare; Sample.ceed]) /\
  In Sample.bare (sort_values insertion_sort Sample.unsorted) /\
  (forall y, In y [cols Sample.ceed] -> s_price_usd y = None).
Proof.
  destruct (null_prices_sort_last insertion_sort insertion_sort_perm)
    as [Hkeep [Hlast _]].
  split; [reflexivity|]. split.
  - apply Hkeep. simpl. auto.
  - apply (Hlast Sample.unsorted (search_request_of "to")
             (map cols [Sample.rio; Sample.camry; Sample.bare; Sample.ceed])
             eq_refl
             (map cols [Sample.rio; Sample.camry]) (cols Sample.bare)
             [cols Sample.ceed]); reflexivity.
Defined.

(** * Further properties *)

(** ** The filter as an operation on tables *)

Lemma filter_twice {A : Type} (p : A -> bool) (l : list A) :
  filter p (filter p l) = filter p l.
Proof.
  apply filter_all. intros x Hx. apply filter_In in Hx. tauto.
Qed.

(** Filtering a result again by the same criteria changes nothing, as long
    as the second call returns: it does when the result has rows or the
    criteria make no text search, and it raises AttributeError on a result
    without rows when they do. *)
Theorem apply_filters_idempotent (data : DataFrame) (a : Args.t)
  (kept : DataFrame) :
  apply_filters data a = Return kept ->
  (kept <> [] \/ searching (Args.q a) = false ->
   apply_filters kept a = Return kept) /\
  (kept = [] -> searching (Args.q a) = true ->
   apply_filters kept a = Raise AttributeError).
Proof.
  intros H. apply apply_filters_return in H. destruct H as [_ [ps [E ->]]].
  split.
  - intros Hrows. rewrite apply_filters_eq.
    assert (Hs : searching (Args.q a) &&
                 is_empty (filter (fun r => found_all ps r && categorical_ok a r
                                            && numeric_ok a r) data) = false).
    { destruct Hrows as [Hne | Hq];
        [rewrite (is_empty_false _ Hne); apply andb_false_r | now rewrite Hq]. }
    rewrite Hs, (selected_return _ _ _ E). now rewrite filter_twice.
  - intros Hnone Hq. rewrite Hnone, apply_filters_eq, Hq. reflexivity.
Qed.

Lemma apply_filters_idempotent_witness :
  apply_filters Sample.table (Sample.query "toyota")
  = Return [Sample.camry; Sample.corolla; Sample.bare] /\
  apply_filters [Sample.camry; Sample.corolla; Sample.bare]
    (Sample.query "toyota")
  = Return [Sample.camry; Sample.corolla; Sample.bare] /\
  apply_filters Sample.table (Sample.query "lada") = Return [] /\
  apply_filters [] (Sample.query "lada") = Raise AttributeError.
Proof.
  split; [reflexivity|]. split.
  - apply (apply_filters_idempotent Sample.table (Sample.query "toyota")
             [Sample.camry; Sample.corolla; Sample.bare] eq_refl).
    left. discriminate.
  - split; [reflexivity|].
    apply (apply_filters_idempotent Sample.table (Sample.query "lada") []
             eq_refl); reflexivity.
Defined.

(** Every record is judged on its own: the filter of two tables put end to
    end is the two filtered tables put end to end, when the criteria make
    no text search or both tables have rows (a text search fails on a
    table without rows). *)
Theorem apply_filters_app (d1 d2 : DataFrame) (a : Args.t) :
  searching (Args.q a) = false \/ (d1 <> [] /\ d2 <> []) ->
  apply_filters (d1 ++ d2) a =
  (k1 <- apply_filters d1 a ;; k2 <- apply_filters d2 a ;; Return (k1 ++ k2)).
Proof.
  intros H. rewrite !apply_filters_eq.
  assert (H1 : searching (Args.q a) && is_empty d1 = false).
  { destruct H as [Hq | [Hd _]];
      [now rewrite Hq | rewrite (is_empty_false _ Hd); apply andb_false_r]. }
  assert (H2 : searching (Args.q a) && is_empty d2 = false).
  { destruct H as [Hq | [_ Hd]];
      [now rewrite Hq | rewrite (is_empty_false _ Hd); apply andb_false_r]. }
  assert (H12 : searching (Args.q a) && is_empty (d1 ++ d2) = false).
  { destruct d1; [exact H2 | apply andb_false_r]. }
  rewrite H1, H2, H12. unfold selected.
  destruct (compile_all (terms_of (Args.q a))) as [ps| |]; simpl; auto.
  now rewrite filter_app.
Qed.

Lemma apply_filters_app_witness :
  apply_filters ([Sample.camry; Sample.civic] ++ [Sample.rio; Sample.bare])
    (Sample.query "toyota")
  = (k1 <- apply_filters [Sample.camry; Sample.civic] (Sample.query "toyota") ;;
     k2 <- apply_filters [Sample.rio; Sample.bare] (Sample.query "toyota") ;;
     Return (k1 ++ k2)) /\
  apply_filters ([Sample.camry; Sample.civic] ++ [Sample.rio; Sample.bare])
    (Sample.query "toyota")
  = Return [Sample.camry; Sample.bare].
Proof.
  split; [|reflexivity].
  apply (apply_filters_app [Sample.camry; Sample.civic]
           [Sample.rio; Sample.bare] (Sample.query "toyota")).
  right. split; discriminate.
Defined.

(** Narrowing the result of one query by a second one gives the same table
    as the other order, and the table holds what both results hold; this
    for results that have rows, or second criteria that make no text
    search. *)
Theorem apply_filters_commute (data : DataFrame) (a b : Args.t)
  (ka kb : DataFrame) :
  apply_filters data a = Return ka ->
  apply_filters data b = Return kb ->
  ka <> [] \/ searching (Args.q b) = false ->
  kb <> [] \/ searching (Args.q a) = false ->
  exists both,
    apply_filters ka b = Return both /\
    apply_filters kb a = Return both /\
    forall r, In r both <-> In r ka /\ In r kb.
Proof.
  intros Ha Hb Hka Hkb.
  apply apply_filters_return in Ha. destruct Ha as [_ [pa [Ea Ha]]].
  apply apply_filters_return in Hb. destruct Hb as [_ [pb [Eb Hb]]].
  assert (Sa : searching (Args.q b) && is_empty ka = false).
  { destruct Hka as [Hne | Hq];
      [rewrite (is_empty_false _ Hne); apply andb_false_r | now rewrite Hq]. }
  assert (Sb : searching (Args.q a) && is_empty kb = false).
  { destruct Hkb as [Hne | Hq];
      [rewrite (is_empty_false _ Hne); apply andb_false_r | now rewrite Hq]. }
  rewrite !apply_filters_eq, Sa, Sb.
  rewrite (selected_return _ _ _ Ea), (selected_return _ _ _ Eb).
  subst ka kb. eexists. split; [|split].
  - rewrite filter_filter. reflexivity.
  - rewrite filter_filter.
    f_equal. apply filter_ext. intros r. apply andb_comm.
  - intros r. rewrite !filter_In, andb_true_iff. tauto.
Qed.

Lemma apply_filters_commute_witness :
  exists both,
    apply_filters [Sample.camry; Sample.corolla; Sample.bare]
      (Sample.year_from "2021") = Return both /\
    apply_filters [Sample.corolla] (Sample.query "toyota") = Return both /\
    forall r, In r both <->
      In r [Sample.camry; Sample.corolla; Sample.bare] /\ In r [Sample.corolla].
Proof.
  apply (apply_filters_commute Sample.table
           (Sample.query "toyota") (Sample.year_from "2021"));
    try reflexivity; left; discriminate.
Defined.

Lemma or_empty_blank (x : option str) :
  strip (or_empty x) = [] -> terms_of (Some (or_empty x)) = [].
Proof.
  intros H. unfold terms_of. simpl. destruct (truthy (or_empty x)); [|reflexivity].
  now rewrite H.
Qed.

Lemma filters_of_unparsed (x : option str) :
  parsed x = None -> parsed (Some (or_empty x)) = None.
Proof. destruct x as [s|]; simpl; [tauto | reflexivity]. Qed.

(** A request that sets nothing shows the whole table: a query that is
    absent or blank, categorical values that are absent or empty, and
    bounds that are absent or do not parse leave every record in. *)
Theorem nothing_set_nothing_filtered (df : DataFrame) (request_args : Args.t) :
  strip (or_empty (Args.q request_args)) = [] ->
  or_empty (Args.brand request_args) = [] ->
  or_empty (Args.model request_args) = [] ->
  or_empty (Args.body_type request_args) = [] ->
  or_empty (Args.fuel_type request_args) = [] ->
  or_empty (Args.drive_type request_args) = [] ->
  or_empty (Args.transmission request_args) = [] ->
  parsed (Args.year_min request_args) = None ->
  parsed (Args.year_max request_args) = None ->
  parsed (Args.hp_min request_args) = None ->
  parsed (Args.hp_max request_args) = None ->
  parsed (Args.price_min request_args) = None ->
  parsed (Args.price_max request_args) = None ->
  filtered_cars df request_args = Return df.
Proof.
  intros Hq Hb Hm Hbt Hf Hd Ht Y1 Y2 H1 H2 P1 P2.
  unfold filtered_cars. rewrite apply_filters_eq. unfold selected, searching.
  cbn [filters_of Args.q str_of]. rewrite Hq, andb_false_r.
  rewrite (or_empty_blank _ Hq). simpl.
  f_equal. apply filter_all. intros r _.
  unfold categorical_ok, numeric_ok, min_ok, max_ok. cbn [filters_of
    Args.brand Args.model Args.body_type Args.fuel_type Args.drive_type
    Args.transmission Args.year_min Args.year_max Args.hp_min Args.hp_max
    Args.price_min Args.price_max].
  rewrite Hb, Hm, Hbt, Hf, Hd, Ht.
  rewrite (filters_of_unparsed _ Y1), (filters_of_unparsed _ Y2),
    (filters_of_unparsed _ H1), (filters_of_unparsed _ H2),
    (filters_of_unparsed _ P1), (filters_of_unparsed _ P2).
  reflexivity.
Qed.

Lemma nothing_set_nothing_filtered_witness :
  filtered_cars Sample.table
    (with_q (Sample.year_from "any") (Some (lit "   "))) = Return Sample.table.
Proof.
  apply (nothing_set_nothing_filtered Sample.table
           (with_q (Sample.year_from "any") (Some (lit "   ")))); reflexivity.
Defined.

Lemma Qle_bool_inject (a b : Z) (v : Q) :
  Qle_bool (inject_Z a) v = true -> Qle_bool v (inject_Z b) = true -> a <= b.
Proof.
  rewrite !Qle_bool_iff. intros H1 H2.
  rewrite Zle_Qle. eapply Qle_trans; eauto.
Qed.

Lemma empty_range (cell : option Q) (lo hi : option str) (a b : Z) :
  parsed lo = Some a -> parsed hi = Some b -> b < a ->
  min_ok cell lo && max_ok cell hi = false.
Proof.
  intros Ha Hb Hlt. unfold min_ok, max_ok. rewrite Ha, Hb.
  destruct cell as [v|]; [|reflexivity]. simpl.
  destruct (Qle_bool (inject_Z a) v) eqn:E1; [|reflexivity].
  destruct (Qle_bool v (inject_Z b)) eqn:E2; [|reflexivity].
  pose proof (Qle_bool_inject _ _ _ E1 E2). lia.
Qed.

(** A range whose lower bound exceeds its upper bound is empty: with such
    bounds on the year, the horsepower or the price, both of a magnitude
    that float64 holds exactly, the filter returns no record at all. *)
Theorem crossed_bounds_give_nothing (data : DataFrame) (a : Args.t)
  (lo hi : Z) :
  hi < lo ->
  exact_in_float64 lo -> exact_in_float64 hi ->
  (parsed (Args.year_min a) = Some lo /\ parsed (Args.year_max a) = Some hi) \/
  (parsed (Args.hp_min a) = Some lo /\ parsed (Args.hp_max a) = Some hi) \/
  (parsed (Args.price_min a) = Some lo /\ parsed (Args.price_max a) = Some hi) ->
  forall kept, apply_filters data a = Return kept -> kept = [].
Proof.
  intros Hlt _ _ Hb kept H.
  apply apply_filters_return in H. destruct H as [_ [ps [_ ->]]].
  apply filter_none. intros r _.
  assert (Hn : numeric_ok a r = false).
  { unfold numeric_ok.
    destruct Hb as [[H1 H2] | [[H1 H2] | [H1 H2]]].
    - rewrite (empty_range (year r) _ _ _ _ H1 H2 Hlt). reflexivity.
    - rewrite <- (andb_assoc _ (min_ok (horsepower r) _)).
      rewrite (empty_range (horsepower r) _ _ _ _ H1 H2 Hlt).
      now rewrite andb_false_r.
    - rewrite <- (andb_assoc _ (min_ok (price_usd r) _)).
      rewrite (empty_range (price_usd r) _ _ _ _ H1 H2 Hlt).
      now rewrite andb_false_r. }
  rewrite Hn. apply andb_false_r.
Qed.

Lemma crossed_bounds_give_nothing_witness :
  apply_filters Sample.table (Demo.years "2021" "2020") = Return [] /\
  forall kept,
    apply_filters Sample.table (Demo.years "2021" "2020") = Return kept ->
    kept = [].
Proof.
  split; [reflexivity|].
  apply (crossed_bounds_give_nothing Sample.table (Demo.years "2021" "2020")
           2021 2020).
  - lia.
  - unfold exact_in_float64. simpl. lia.
  - unfold exact_in_float64. simpl. lia.
  - left. split; reflexivity.
Defined.

(** ** The query does not depend on the case of its letters *)

Lemma isspace_lower_char (c : ascii) : isspace (lower_char c) = isspace c.
Proof. destruct c as [[] [] [] [] [] [] [] []]; reflexivity. Qed.

Lemma lower_char_idempotent (c : ascii) :
  lower_char (lower_char c) = lower_char c.
Proof. destruct c as [[] [] [] [] [] [] [] []]; reflexivity. Qed.

Lemma lstrip_lower (s : str) : lstrip (lower s) = lower (lstrip s).
Proof.
  induction s as [|c s IH]; simpl; [reflexivity|].
  rewrite isspace_lower_char. destruct (isspace c); [exact IH | reflexivity].
Qed.

Lemma rev_lower (s : str) : rev (lower s) = lower (rev s).
Proof. unfold lower. now rewrite map_rev. Qed.

Lemma strip_lower (s : str) : strip (lower s) = lower (strip s).
Proof.
  unfold strip, rstrip.
  now rewrite lstrip_lower, rev_lower, lstrip_lower, rev_lower.
Qed.

Lemma terms_of_lower (q q' : str) :
  lower q = lower q' -> terms_of (Some q) = terms_of (Some q').
Proof.
  intros H. unfold terms_of. simpl.
  assert (Ht : truthy q = truthy q').
  { destruct q, q'; simpl in *; congruence. }
  rewrite Ht. destruct (truthy q'); [|reflexivity].
  now rewrite <- !strip_lower, H.
Qed.

Lemma truthy_lower (q q' : str) : lower q = lower q' -> truthy q = truthy q'.
Proof. destruct q, q'; simpl; congruence. Qed.

Lemma searching_lower (q q' : str) :
  lower q = lower q' -> searching (Some q) = searching (Some q').
Proof.
  intros H. unfold searching. cbn [truthy_opt str_of].
  rewrite (truthy_lower _ _ H). f_equal.
  apply truthy_lower. now rewrite <- !strip_lower, H.
Qed.

(** Two queries that differ only in the case of their letters select the
    same records, and fail alike when they fail. *)
Theorem query_case_is_ignored (data : DataFrame) (a : Args.t) (q q' : str) :
  Args.q a = Some q ->
  lower q = lower q' ->
  apply_filters data (with_q a (Some q')) = apply_filters data a.
Proof.
  intros Hq Hl. rewrite !apply_filters_eq. unfold selected.
  cbn [with_q Args.q].
  rewrite Hq, (terms_of_lower _ _ Hl), (searching_lower _ _ Hl).
  destruct (searching (Some q') && is_empty data); [reflexivity|].
  destruct (compile_all (terms_of (Some q'))); reflexivity.
Qed.

Lemma query_case_is_ignored_witness :
  apply_filters Sample.table (with_q (Sample.query "toyota") (Some (lit "ToYoTa")))
  = apply_filters Sample.table (Sample.query "toyota").
Proof.
  apply (query_case_is_ignored Sample.table (Sample.query "toyota")
           (lit "toyota") (lit "ToYoTa")); reflexivity.
Defined.

(** ** [_to_int] reads back what [str] writes *)

Lemma digits_step (acc : Z) (seen : bool) (c : ascii) (s : str) :
  isdigit c = true ->
  digits acc seen (c :: s) = digits (10 * acc + digit_value c) true s.
Proof. intros H. cbn [digits]. now rewrite H. Qed.

Ltac digit_step :=
  unfold chars; cbn [NilEmpty.string_of_uint list_ascii_of_string];
  rewrite digits_step by reflexivity;
  fold (chars).

Lemma digits_of_uint_acc (d : Decimal.uint) :
  forall acc : positive,
    digits (Zpos acc) true (chars d) = Some (Zpos (Pos.of_uint_acc d acc)).
Proof.
  induction d as [|d IH|d IH|d IH|d IH|d IH|d IH|d IH|d IH|d IH|d IH];
    intros acc; [reflexivity|..];
    digit_step; cbn [Pos.of_uint_acc];
    match goal with
    | |- digits ?v true _ = Some (Zpos (Pos.of_uint_acc _ ?p)) =>
        replace v with (Zpos p)
          by (unfold digit_value, code; cbn [N_of_ascii N_of_digits];
              simpl Z.of_N; lia)
    end; apply IH.
Qed.

Lemma digits_of_uint (d : Decimal.uint) :
  digits 0 true (chars d) = Some (Z.of_N (Pos.of_uint d)).
Proof.
  induction d as [|d IH|d IH|d IH|d IH|d IH|d IH|d IH|d IH|d IH|d IH];
    [reflexivity | digit_step; exact IH | ..];
    digit_step; cbn [Pos.of_uint Z.of_N]; apply digits_of_uint_acc.
Qed.

Lemma digits_unseen (d : Decimal.uint) :
  d <> Decimal.Nil ->
  digits 0 false (chars d) = digits 0 true (chars d).
Proof.
  destruct d; [congruence|..]; intros _;
    unfold chars; cbn [NilEmpty.string_of_uint list_ascii_of_string];
    now rewrite !digits_step by reflexivity.
Qed.

Lemma chars_no_space (d : Decimal.uint) :
  forallb (fun c => negb (isspace c)) (chars d) = true.
Proof.
  induction d; unfold chars in *;
    cbn [NilEmpty.string_of_uint list_ascii_of_string forallb];
    [reflexivity|..]; rewrite IHd; reflexivity.
Qed.

Lemma chars_unsigned (d : Decimal.uint) :
  d <> Decimal.Nil ->
  signed_digits (chars d) = digits 0 false (chars d).
Proof.
  destruct d; [congruence|..]; intros _; reflexivity.
Qed.

Lemma chars_not_empty (d : Decimal.uint) :
  d <> Decimal.Nil -> chars d <> [].
Proof. destruct d; [congruence|..]; intros _; discriminate. Qed.

(** A text without white space is left as it is by [strip]. *)
Lemma strip_no_space (s : str) :
  forallb (fun c => negb (isspace c)) s = true -> strip s = s.
Proof.
  intros H. rewrite forallb_forall in H.
  assert (Hhead : forall t, (forall c, In c t -> negb (isspace c) = true) ->
                    lstrip t = t).
  { intros t Ht. apply lstrip_fixed. destruct t as [|c t]; [exact I|].
    apply negb_true_iff, Ht. now left. }
  unfold strip, rstrip. rewrite (Hhead s H), Hhead, rev_involutive; auto.
  intros c Hc. apply H. now apply in_rev.
Qed.

Lemma to_int_of_text (s : str) (n : Z) :
  forallb (fun c => negb (isspace c)) s = true ->
  s <> [] ->
  signed_digits s = Some n ->
  count_digits s <= max_str_digits ->
  _to_int (Some s) = Return (Some n).
Proof.
  intros Hs Hne Hd Hc. unfold _to_int. cbv zeta. rewrite (strip_no_space _ Hs).
  destruct (str_eqb s []) eqn:E; [apply str_eqb_eq in E; contradiction|].
  unfold int. rewrite (strip_no_space _ Hs), Hd.
  apply Z.ltb_ge in Hc. now rewrite Hc.
Qed.

(** *** How many digits an integer has *)

Lemma digit_value_range (c : ascii) :
  isdigit c = true -> 0 <= digit_value c <= 9.
Proof.
  unfold isdigit, digit_value. rewrite andb_true_iff, !N.leb_le. lia.
Qed.

(** A run of [L] digits read after [acc] gives a number between
    [acc * 10^L] and [(acc + 1) * 10^L]. *)
Lemma digits_bounds (s : str) :
  forallb isdigit s = true ->
  forall acc, 0 <= acc ->
    exists v,
      digits acc true s = Some v /\
      acc * 10 ^ Z.of_nat (List.length s) <= v
      < (acc + 1) * 10 ^ Z.of_nat (List.length s).
Proof.
  induction s as [|c s IH]; intros Hd acc Hacc.
  - exists acc. split; [reflexivity|]. simpl. lia.
  - cbn [forallb] in Hd. apply andb_true_iff in Hd. destruct Hd as [Hc Hs].
    pose proof (digit_value_range c Hc) as Hv.
    destruct (IH Hs (10 * acc + digit_value c) ltac:(lia)) as [v [Ev Hb]].
    exists v. split; [cbn [digits]; now rewrite Hc|].
    cbn [List.length]. rewrite Nat2Z.inj_succ, Z.pow_succ_r by lia.
    assert (Hp : 0 < 10 ^ Z.of_nat (List.length s))
      by (apply Z.pow_pos_nonneg; lia).
    nia.
Qed.

Lemma chars_digits (d : Decimal.uint) : forallb isdigit (chars d) = true.
Proof.
  induction d; unfold chars in *;
    cbn [NilEmpty.string_of_uint list_ascii_of_string forallb];
    [reflexivity|..]; rewrite IHd; reflexivity.
Qed.

Lemma count_digits_all (s : str) :
  forallb isdigit s = true -> count_digits s = Z.of_nat (List.length s).
Proof.
  intros H. unfold count_digits. rewrite filter_all; [reflexivity|].
  intros c Hc. rewrite forallb_forall in H. now apply H.
Qed.

(** The decimal number of a positive integer starts with a digit other
    than 0. *)
Lemma to_uint_head (p : positive) :
  exists c s,
    chars (Pos.to_uint p) = c :: s /\ isdigit c = true /\ 1 <= digit_value c.
Proof.
  pose proof (DecimalPos.Unsigned.to_uint_nonnil p) as Hnil.
  pose proof (DecimalPos.Unsigned.to_uint_nonzero p) as Hzero.
  assert (Hnorm : Decimal.unorm (Pos.to_uint p) = Pos.to_uint p).
  { rewrite <- DecimalPos.Unsigned.to_of, DecimalPos.Unsigned.of_to.
    reflexivity. }
  destruct (Pos.to_uint p) as [|d|d|d|d|d|d|d|d|d|d] eqn:E;
    [congruence | | | | | | | | | | ];
    try (eexists; eexists; split; [reflexivity|]; split;
         [reflexivity | unfold digit_value; simpl; lia]).
  exfalso. unfold Decimal.unorm in Hnorm. cbn [Decimal.nzhead] in Hnorm.
  pose proof (DecimalFacts.nb_digits_nzhead d) as Hlen.
  destruct (Decimal.nzhead d) eqn:En;
    try (rewrite Hnorm in Hlen; simpl in Hlen; lia).
  apply Hzero. exact (eq_sym Hnorm).
Qed.

Lemma decimal_pos (p : positive) : decimal (Zpos p) = chars (Pos.to_uint p).
Proof.
  unfold decimal, chars. cbn [Z.to_int NilZero.string_of_int].
  pose proof (DecimalPos.Unsigned.to_uint_nonnil p) as Hnil.
  destruct (Pos.to_uint p); [congruence|..]; reflexivity.
Qed.

Lemma decimal_neg (p : positive) :
  decimal (Zneg p) = "-"%char :: chars (Pos.to_uint p).
Proof.
  unfold decimal, chars. cbn [Z.to_int NilZero.string_of_int].
  pose proof (DecimalPos.Unsigned.to_uint_nonnil p) as Hnil.
  destruct (Pos.to_uint p); [congruence|..]; reflexivity.
Qed.

Lemma chars_value (p : positive) :
  digits 0 false (chars (Pos.to_uint p)) = Some (Zpos p).
Proof.
  pose proof (DecimalPos.Unsigned.to_uint_nonnil p) as Hnil.
  rewrite (digits_unseen _ Hnil), digits_of_uint.
  now rewrite DecimalPos.Unsigned.of_to.
Qed.

(** The number of digits of a positive integer [p]: the [L] with
    [10^(L-1) <= p < 10^L]. *)
Lemma chars_length (p : positive) :
  let L := Z.of_nat (List.length (chars (Pos.to_uint p))) in
  10 ^ (L - 1) <= Zpos p < 10 ^ L.
Proof.
  cbv zeta.
  pose proof (DecimalPos.Unsigned.to_uint_nonnil p) as Hnil.
  pose proof (chars_value p) as Hv.
  pose proof (chars_digits (Pos.to_uint p)) as Hd.
  rewrite (digits_unseen _ Hnil) in Hv.
  split.
  - destruct (to_uint_head p) as [c [s [Es [Hc Hone]]]].
    rewrite Es in Hv, Hd |- *. cbn [forallb] in Hd.
    apply andb_true_iff in Hd. destruct Hd as [_ Hs].
    cbn [digits] in Hv. rewrite Hc in Hv.
    destruct (digits_bounds s Hs (10 * 0 + digit_value c) ltac:(lia))
      as [v [Ev Hb]].
    rewrite Ev in Hv. inversion Hv; subst v.
    cbn [List.length]. rewrite Nat2Z.inj_succ.
    replace (Z.succ (Z.of_nat (List.length s)) - 1)
      with (Z.of_nat (List.length s)) by lia.
    assert (Hp : 0 < 10 ^ Z.of_nat (List.length s))
      by (apply Z.pow_pos_nonneg; lia).
    nia.
  - destruct (digits_bounds _ Hd 0 ltac:(lia)) as [v [Ev Hb]].
    rewrite Ev in Hv. inversion Hv; subst v. lia.
Qed.

(** [str] refuses exactly the integers of more than 4300 digits, those of
    magnitude 10^4300 and more. *)
Lemma str_int_returns (n : Z) :
  Z.abs n < 10 ^ max_str_digits -> str_int n = Return (decimal n).
Proof.
  intros Hn. unfold str_int.
  assert (Hc : count_digits (decimal n) <= max_str_digits).
  { destruct n as [|p|p]; [vm_compute; discriminate | |].
    - rewrite decimal_pos, (count_digits_all _ (chars_digits _)).
      pose proof (chars_length p) as [Hlo _]. cbn [Z.abs] in Hn.
      assert (H : Z.of_nat (List.length (chars (Pos.to_uint p))) - 1
                  < max_str_digits)
        by (apply (Z.pow_lt_mono_r_iff 10);
            [lia | unfold max_str_digits; lia | lia]).
      lia.
    - rewrite decimal_neg. unfold count_digits. cbn [filter].
      change (isdigit "-"%char) with false. cbv iota.
      fold (count_digits (chars (Pos.to_uint p))).
      rewrite (count_digits_all _ (chars_digits _)).
      pose proof (chars_length p) as [Hlo _]. cbn [Z.abs] in Hn.
      assert (H : Z.of_nat (List.length (chars (Pos.to_uint p))) - 1
                  < max_str_digits)
        by (apply (Z.pow_lt_mono_r_iff 10);
            [lia | unfold max_str_digits; lia | lia]).
      lia. }
  apply Z.ltb_ge in Hc. now rewrite Hc.
Qed.

Lemma str_int_raises (n : Z) :
  10 ^ max_str_digits <= Z.abs n -> str_int n = Raise ValueError.
Proof.
  intros Hn. unfold str_int.
  assert (Hc : max_str_digits < count_digits (decimal n)).
  { destruct n as [|p|p].
    - exfalso. assert (0 < 10 ^ max_str_digits)
        by (apply Z.pow_pos_nonneg; unfold max_str_digits; lia).
      cbn [Z.abs] in Hn. lia.
    - rewrite decimal_pos, (count_digits_all _ (chars_digits _)).
      pose proof (chars_length p) as [_ Hhi]. cbn [Z.abs] in Hn.
      apply (Z.pow_lt_mono_r_iff 10); [lia | lia | lia].
    - rewrite decimal_neg. unfold count_digits. cbn [filter].
      change (isdigit "-"%char) with false. cbv iota.
      fold (count_digits (chars (Pos.to_uint p))).
      rewrite (count_digits_all _ (chars_digits _)).
      pose proof (chars_length p) as [_ Hhi]. cbn [Z.abs] in Hn.
      apply (Z.pow_lt_mono_r_iff 10); [lia | lia | lia]. }
  apply Z.ltb_lt in Hc. now rewrite Hc.
Qed.

(** What [str] writes, [_to_int] reads back. *)
Lemma to_int_decimal (n : Z) :
  count_digits (decimal n) <= max_str_digits ->
  _to_int (Some (decimal n)) = Return (Some n).
Proof.
  intros Hc. destruct n as [|p|p]; [reflexivity|..];
    pose proof (DecimalPos.Unsigned.to_uint_nonnil p) as Hnil.
  - rewrite decimal_pos in *. apply to_int_of_text.
    + apply chars_no_space.
    + now apply chars_not_empty.
    + rewrite (chars_unsigned _ Hnil). apply chars_value.
    + exact Hc.
  - rewrite decimal_neg in *. apply to_int_of_text.
    + cbn [forallb]. now rewrite chars_no_space.
    + discriminate.
    + cbn [signed_digits].
      change (ascii_eqb "-"%char "-"%char) with true. cbv iota.
      now rewrite chars_value.
    + exact Hc.
Qed.

(** A Python int written by [str] is read back by [_to_int] as the same
    int, negative ones included: [str] writes every integer of magnitude
    below 10^4300, and what it writes is read back as the integer it was.
    The integers of magnitude 10^4300 and more have more digits than the
    interpreter converts, and [str] raises ValueError for them. *)
Theorem to_int_reads_back_str (n : Z) :
  (Z.abs n < 10 ^ max_str_digits ->
   exists s, str_int n = Return s /\ _to_int (Some s) = Return (Some n)) /\
  (10 ^ max_str_digits <= Z.abs n -> str_int n = Raise ValueError) /\
  (forall s, str_int n = Return s -> _to_int (Some s) = Return (Some n)).
Proof.
  split; [|split].
  - intros Hn. exists (decimal n). split; [now apply str_int_returns|].
    apply to_int_decimal.
    pose proof (str_int_returns n Hn) as H. unfold str_int in H.
    destruct (max_str_digits <? count_digits (decimal n)) eqn:E;
      [discriminate | now apply Z.ltb_ge].
  - apply str_int_raises.
  - intros s H. unfold str_int in H.
    destruct (max_str_digits <? count_digits (decimal n)) eqn:E;
      [discriminate|].
    inversion H; subst s. apply to_int_decimal. now apply Z.ltb_ge.
Qed.

Example to_int_reads_back_example :
  str_int (-42) = Return (lit "-42") /\
  _to_int (Some (lit "-42")) = Return (Some (-42)).
Proof. split; reflexivity. Qed.

(** ** More on recommendations *)

(** The answer is the 404 exactly when no record of the table carries the
    id. *)
Theorem recommend_not_found (df : DataFrame) (car_id : Z) :
  recommend df car_id = NotFound <-> forall r, In r df -> id r <> car_id.
Proof.
  rewrite recommend_eq.
  destruct (filter (fun r => id r =? car_id) df) as [|car l] eqn:E.
  - split; [|reflexivity]. intros _ r Hr Hid.
    assert (H : In r (filter (fun r => id r =? car_id) df)).
    { apply filter_In. split; [exact Hr | now apply Z.eqb_eq]. }
    rewrite E in H. destruct H.
  - split; [discriminate|]. intros H.
    assert (Hc : In car (filter (fun r => id r =? car_id) df))
      by (rewrite E; now left).
    apply filter_In in Hc. destruct Hc as [Hin Hid].
    apply Z.eqb_eq in Hid. destruct (H car Hin Hid).
Qed.

Lemma between_inv (x left right : option Q) :
  between x left right = true ->
  exists v l r, x = Some v /\ left = Some l /\ right = Some r /\
                (l <= v)%Q /\ (v <= r)%Q.
Proof.
  destruct x as [v|], left as [l|], right as [r|]; simpl; try discriminate.
  rewrite andb_true_iff, !Qle_bool_iff. intros [H1 H2].
  exists v, l, r. auto.
Qed.



(** ** The favourites page *)

Lemma favorites_eq (df : DataFrame) (ids : list Z) :
  favorites df ids = filter (fun r => list_in (id r) ids) df.
Proof. apply boolean_index_map. Qed.

Lemma list_remove_other (x y : Z) (l : list Z) :
  y <> x -> (In y (list_remove x l) <-> In y l).
Proof.
  intros Hne. induction l as [|z l IH]; simpl; [tauto|].
  destruct (z =? x) eqn:E.
  - apply Z.eqb_eq in E. subst z. split; [now right|].
    intros [H | H]; [congruence | exact H].
  - simpl. rewrite IH. tauto.
Qed.

(** The members of the favourites after one toggle. *)
Lemma toggle_members (ids : list Z) (car_id x : Z) :
  NoDup ids ->
  (In x (toggled ids car_id) <->
   (x = car_id /\ ~ In car_id ids) \/ (x <> car_id /\ In x ids)).
Proof.
  intros Hnd. unfold toggled.
  destruct (list_in car_id ids) eqn:E.
  - apply list_in_iff in E. rewrite (list_remove_nodup car_id x ids Hnd).
    destruct (Z.eq_dec x car_id); intuition congruence.
  - assert (Hn : ~ In car_id ids) by (rewrite <- list_in_iff, E; discriminate).
    rewrite in_app_iff. simpl.
    destruct (Z.eq_dec x car_id); intuition congruence.
Qed.

Lemma list_in_ext (ids ids' : list Z) :
  (forall x, In x ids <-> In x ids') ->
  forall x, list_in x ids = list_in x ids'.
Proof.
  intros H x. destruct (list_in x ids) eqn:E, (list_in x ids') eqn:E'; auto.
  - apply list_in_iff, H, list_in_iff in E. congruence.
  - apply list_in_iff, H, list_in_iff in E'. congruence.
Qed.

(** What the handler returns: the list of lines 198-201, stored for an
    application that has a secret key, and the address of line 205. *)
Lemma toggle_favorite_return (key : option str)
  (urlparse : str -> result ParseResult) (index_url : str)
  (stored : list Z) (car_id : Z) (next referrer : option str)
  (favorites_ : list Z) (target : str) :
  toggle_favorite key urlparse index_url stored car_id next referrer
  = Return (favorites_, target) ->
  truthy_opt key = true /\ favorites_ = toggled stored car_id /\
  toggle_redirect urlparse index_url next referrer = Return target.
Proof.
  unfold toggle_favorite, toggle_session, session_set.
  destruct (truthy_opt key); cbn [bind]; [|discriminate].
  destruct (toggle_redirect urlparse index_url next referrer) as [t| |];
    cbn [bind]; try discriminate.
  intros H. inversion H. auto.
Qed.



(** Toggling the same car twice leaves the favourites page as it was,
    record for record, although the list kept in the session may come back
    in another order.  This for the list of lines 198-201, and so for what
    the session holds after the two requests, with or without a secret
    key. *)
Theorem toggle_twice_same_page (df : DataFrame) (ids : list Z) (car_id : Z) :
  session_state ids ->
  favorites df (toggled (toggled ids car_id) car_id)
  = favorites df ids /\
  forall key,
    favorites df (stored_after key (stored_after key ids car_id) car_id)
    = favorites df ids.
Proof.
  intros Hs. pose proof (session_state_nodup _ Hs) as Hnd.
  pose proof (session_state_nodup _ (session_toggled ids car_id Hs)) as Hnd'.
  assert (Htwice : favorites df (toggled (toggled ids car_id) car_id)
                   = favorites df ids).
  { rewrite !favorites_eq. apply filter_ext. intros r.
    apply list_in_ext. intros x.
    rewrite (toggle_members _ car_id x Hnd'), !(toggle_members ids car_id _ Hnd).
    destruct (Z.eq_dec x car_id) as [-> | Hne],
             (in_dec Z.eq_dec car_id ids) as [Hin | Hout];
      intuition congruence. }
  split; [exact Htwice|].
  intros key. rewrite !stored_after_cases.
  destruct (truthy_opt key); [exact Htwice | reflexivity].
Qed.

Lemma toggle_twice_same_page_witness :
  toggled (toggled [1; 3] 1) 1 = [3; 1] /\
  favorites Sample.table (toggled (toggled [1; 3] 1) 1)
  = favorites Sample.table [1; 3] /\
  forall key,
    favorites Sample.table (stored_after key (stored_after key [1; 3] 1) 1)
    = favorites Sample.table [1; 3].
Proof.
  split; [reflexivity|].
  apply (toggle_twice_same_page Sample.table [1; 3] 1).
  apply (session_toggled [1] 3), (session_toggled [] 1), session_new.
Defined.

(** Toggling an id that no record carries is harmless: the favourites page
    does not change, whatever the session holds; this for the list of
    lines 198-201, and so for what the session holds after the request,
    with or without a secret key. *)
Theorem toggle_unknown_id (df : DataFrame) (ids : list Z) (car_id : Z) :
  (forall r, In r df -> id r <> car_id) ->
  favorites df (toggled ids car_id) = favorites df ids /\
  forall key, favorites df (stored_after key ids car_id) = favorites df ids.
Proof.
  intros Hun.
  assert (Hone : favorites df (toggled ids car_id) = favorites df ids).
  { rewrite !favorites_eq. apply filter_ext_in. intros r Hr.
    pose proof (Hun r Hr) as Hne.
    unfold toggled. destruct (list_in car_id ids).
    - destruct (list_in (id r) (list_remove car_id ids)) eqn:E,
               (list_in (id r) ids) eqn:E'; auto.
      + apply list_in_iff, (list_remove_other car_id (id r) ids Hne),
          list_in_iff in E. congruence.
      + apply list_in_iff, (list_remove_other car_id (id r) ids Hne),
          list_in_iff in E'. congruence.
    - destruct (list_in (id r) (ids ++ [car_id])) eqn:E,
               (list_in (id r) ids) eqn:E'; auto.
      + apply list_in_iff, in_app_iff in E. destruct E as [E | [E | []]].
        * apply list_in_iff in E. congruence.
        * congruence.
      + assert (H : In (id r) (ids ++ [car_id]))
          by (apply in_app_iff; left; now apply list_in_iff).
        apply list_in_iff in H. congruence. }
  split; [exact Hone|].
  intros key. rewrite stored_after_cases.
  destruct (truthy_opt key); [exact Hone | reflexivity].
Qed.

Lemma toggle_unknown_id_witness :
  favorites Sample.table (toggled [1; 3] 99)
  = favorites Sample.table [1; 3] /\
  forall key,
    favorites Sample.table (stored_after key [1; 3] 99)
    = favorites Sample.table [1; 3].
Proof.
  apply (toggle_unknown_id Sample.table [1; 3] 99).
  intros r Hr. simpl in Hr.
  destruct Hr as [<- | [<- | [<- | [<- | [<- | []]]]]]; discriminate.
Defined.

(** ** Redirects *)

Section AnyUrlParser.

Variable urlparse : str -> result ParseResult.
Variable index_url : str.
Hypothesis index_url_rooted : startswith index_url (lit "/") = true.

Lemma safe_next_cases (next_url target : str) :
  _safe_next urlparse index_url next_url = Return target ->
  target = index_url \/
  (target = next_url /\ startswith next_url (lit "/") = true /\
   exists p, urlparse next_url = Return p /\ scheme p = [] /\ netloc p = []).
Proof.
  unfold _safe_next. destruct (truthy next_url); cbn [negb].
  - destruct (urlparse next_url) as [p| |]; cbn [bind]; try discriminate.
    destruct (scheme p) as [|c sc] eqn:Es; cbn [truthy orb].
    + destruct (netloc p) as [|c nl] eqn:En; cbn [truthy orb].
      * destruct (startswith next_url (lit "/")) eqn:E; cbn [negb];
          intros H; inversion H; subst; auto.
        right. split; [reflexivity|]. split; [auto|].
        exists p. auto.
      * intros H; inversion H; auto.
    + intros H; inversion H; auto.
  - intros H; inversion H; auto.
Qed.

(** What [_safe_next] returns once the parser has returned. *)
Lemma safe_next_parsed (next_url : str) (p : ParseResult) :
  urlparse next_url = Return p ->
  _safe_next urlparse index_url next_url =
  Return (if truthy next_url && negb (truthy (scheme p))
             && negb (truthy (netloc p)) && startswith next_url (lit "/")
          then next_url else index_url).
Proof.
  intros Hp. unfold _safe_next. rewrite Hp. cbn [bind].
  destruct (truthy next_url); cbn [negb andb]; [|reflexivity].
  destruct (truthy (scheme p)); cbn [negb andb orb]; [reflexivity|].
  destruct (truthy (netloc p)); cbn [negb andb orb]; [reflexivity|].
  now destruct (startswith next_url (lit "/")).
Qed.

(** Whatever [_safe_next] returns is a path that starts with a slash: the
    index page, or the address given, which it returns only when the
    parser finds neither a scheme nor a network location in it and it
    starts with a slash.  It returns whenever the parser does: the address
    given when it is such a path, the index page when the parser finds a
    scheme or a network location or the address does not start with a
    slash; and for the empty address it returns the index page without a
    parse.  So the address the handler [toggle_favorite] redirects to, when
    it returns, starts with a slash and is the index page or an address in
    which the parser finds neither scheme nor network location. *)
Theorem redirect_stays_on_site (next_url : str) :
  (forall target,
     _safe_next urlparse index_url next_url = Return target ->
     startswith target (lit "/") = true /\
     (target = index_url \/
      (target = next_url /\
       exists p, urlparse next_url = Return p /\
                 scheme p = [] /\ netloc p = []))) /\
  (forall p, urlparse next_url = Return p ->
     exists target,
       _safe_next urlparse index_url next_url = Return target /\
       (scheme p = [] -> netloc p = [] ->
        startswith next_url (lit "/") = true -> target = next_url) /\
       (scheme p <> [] \/ netloc p <> [] \/
        startswith next_url (lit "/") = false -> target = index_url)) /\
  _safe_next urlparse index_url [] = Return index_url /\
  (forall key stored car_id next referrer favorites_ target,
     toggle_favorite key urlparse index_url stored car_id next referrer
     = Return (favorites_, target) ->
     startswith target (lit "/") = true /\
     (target = index_url \/
      exists p, urlparse target = Return p /\
                scheme p = [] /\ netloc p = [])).
Proof.
  split; [|split; [|split]].
  - intros target H. apply safe_next_cases in H.
    destruct H as [-> | [-> [H Hp]]]; auto.
  - intros p Hp. rewrite (safe_next_parsed _ _ Hp).
    eexists. split; [reflexivity|]. split.
    + intros Hs Hn Hslash. rewrite Hs, Hn, Hslash.
      destruct next_url; [discriminate Hslash | reflexivity].
    + intros [Hs | [Hn | Hslash]].
      * destruct (scheme p); [congruence|].
        now rewrite andb_false_r.
      * destruct (netloc p); [congruence|].
        now rewrite andb_false_r.
      * now rewrite Hslash, andb_false_r.
  - reflexivity.
  - intros key stored car_id next referrer favorites_ target H.
    apply toggle_favorite_return in H. destruct H as [_ [_ H]].
    unfold toggle_redirect in H. apply safe_next_cases in H.
    destruct H as [-> | [-> [H Hp]]]; auto.
Qed.

End AnyUrlParser.

Lemma redirect_stays_on_site_witness :
  _safe_next Demo.slashes_only (lit "/") (lit "//evil.example/x")
  = Return (lit "/") /\
  _safe_next Demo.slashes_only (lit "/") (lit "/favorites")
  = Return (lit "/favorites") /\
  forall target,
    _safe_next Demo.slashes_only (lit "/") (lit "//evil.example/x")
    = Return target ->
    startswith target (lit "/") = true /\
    (target = lit "/" \/
     (target = lit "//evil.example/x" /\
      exists p, Demo.slashes_only (lit "//evil.example/x") = Return p /\
                scheme p = [] /\ netloc p = [])).
Proof.
  split; [reflexivity|]. split; [reflexivity|].
  apply (redirect_stays_on_site Demo.slashes_only (lit "/") eq_refl
           (lit "//evil.example/x")).
Defined.

(** ** More on search suggestions *)

Lemma sorted_app_cross {A : Type} (R : A -> A -> Prop) (l1 l2 : list A) :
  StronglySorted R (l1 ++ l2) ->
  forall a b, In a l1 -> In b l2 -> R a b.
Proof.
  induction l1 as [|x l1 IH]; simpl; intros H a b Ha Hb; [destruct Ha|].
  inversion H as [|? ? Hl Hx]; subst.
  destruct Ha as [<- | Ha].
  - rewrite Forall_forall in Hx. apply Hx, in_app_iff. now right.
  - now apply IH.
Qed.

Section AnySortingRoutineMore.

Variable argsort : list (Q * row) -> list (Q * row).
Hypothesis argsort_perm : forall l, Permutation (argsort l) l.
Hypothesis argsort_sorted : forall l, StronglySorted key_le (argsort l).

Lemma api_search_rows_eq (df : DataFrame) (args : search_request)
  (n : Z) (matching : DataFrame) :
  search_limit (arg_limit args) = Return n ->
  (Z.of_nat (List.length (strip (or_empty (arg_q args)))) <? 2) &&
    negb (truthy (strip (or_empty (arg_brand args)))) = false ->
  apply_filters df
    (search_criteria (strip (or_empty (arg_q args)))
       (strip (or_empty (arg_brand args)))) = Return matching ->
  api_search_rows argsort df args
  = Return (head n (sort_values argsort matching)).
Proof.
  intros Hn Hshort Hm. unfold api_search_rows. cbv zeta.
  rewrite Hn. simpl. rewrite Hshort, Hm. reflexivity.
Qed.

(** When the query is long enough or a brand is given, no suggestion is
    withheld: the answer holds as many records as match, up to the limit. *)
Theorem search_answer_size (df : DataFrame) (args : search_request)
  (n : Z) (matching : DataFrame) :
  search_limit (arg_limit args) = Return n ->
  (Z.of_nat (List.length (strip (or_empty (arg_q args)))) <? 2) &&
    negb (truthy (strip (or_empty (arg_brand args)))) = false ->
  apply_filters df
    (search_criteria (strip (or_empty (arg_q args)))
       (strip (or_empty (arg_brand args)))) = Return matching ->
  exists answer,
    api_search argsort df args = Return answer /\
    List.length answer = Nat.min (Z.to_nat n) (List.length matching).
Proof.
  intros Hn Hshort Hm. unfold api_search.
  rewrite (api_search_rows_eq df args n matching Hn Hshort Hm). simpl.
  eexists. split; [reflexivity|].
  rewrite length_map. unfold head. rewrite length_firstn.
  now rewrite (Permutation_length (sort_values_perm argsort argsort_perm matching)).
Qed.

(** The answer holds the cheapest matches: a matching record with a price
    strictly below that of a record of the answer is in the answer too. *)
Theorem search_answer_cheapest (df : DataFrame) (args : search_request)
  (n : Z) (matching rows : DataFrame) :
  search_limit (arg_limit args) = Return n ->
  (Z.of_nat (List.length (strip (or_empty (arg_q args)))) <? 2) &&
    negb (truthy (strip (or_empty (arg_brand args)))) = false ->
  apply_filters df
    (search_criteria (strip (or_empty (arg_q args)))
       (strip (or_empty (arg_brand args)))) = Return matching ->
  api_search_rows argsort df args = Return rows ->
  forall a m pa pm,
    In a rows -> In m matching ->
    price_usd a = Some pa -> price_usd m = Some pm -> (pm < pa)%Q ->
    In m rows.
Proof.
  intros Hn Hshort Hm Hrows a m pa pm Ha Hmm Epa Epm Hlt.
  rewrite (api_search_rows_eq df args n matching Hn Hshort Hm) in Hrows.
  inversion Hrows; subst rows. clear Hrows. unfold head in *.
  set (L := sort_values argsort matching) in *.
  assert (HL : In m L).
  { apply (Permutation_in _
             (Permutation_sym (sort_values_perm argsort argsort_perm matching))).
    exact Hmm. }
  rewrite <- (firstn_skipn (Z.to_nat n) L) in HL.
  apply in_app_iff in HL. destruct HL as [HL | HL]; [exact HL|].
  pose proof (sort_values_sorted argsort argsort_perm argsort_sorted matching)
    as Hs.
  fold L in Hs. rewrite <- (firstn_skipn (Z.to_nat n) L) in Hs.
  pose proof (sorted_app_cross _ _ _ Hs a m Ha HL) as Hle.
  simpl in Hle. rewrite Epa, Epm in Hle. simpl in Hle.
  exfalso. apply (Qlt_not_le _ _ Hlt Hle).
Qed.

(** When a brand is given, every suggestion is of that brand. *)
Theorem search_answer_brand (df : DataFrame) (args : search_request)
  (answer : list suggestion) :
  strip (or_empty (arg_brand args)) <> [] ->
  api_search argsort df args = Return answer ->
  forall s, In s answer -> s_brand s = Some (strip (or_empty (arg_brand args))).
Proof.
  intros Hb Hans s Hs.
  destruct (search_limit_range (arg_limit args)) as [n [Hn _]].
  rewrite (api_search_eq argsort df args n Hn) in Hans.
  destruct (strip (or_empty (arg_brand args))) as [|c b] eqn:Eb; [congruence|].
  rewrite andb_false_r in Hans.
  destruct (apply_filters df _) as [matching| |] eqn:Em; simpl in Hans;
    try discriminate.
  apply apply_filters_return in Em. destruct Em as [_ [ps [_ ->]]].
  inversion Hans; subst answer. clear Hans.
  apply in_map_iff in Hs. destruct Hs as [r [<- Hr]].
  apply firstn_subset in Hr.
  apply (Permutation_in _ (sort_values_perm argsort argsort_perm _)) in Hr.
  apply filter_In in Hr. destruct Hr as [_ Hok].
  rewrite !andb_true_iff in Hok. destruct Hok as [[_ Hcat] _].
  unfold categorical_ok in Hcat. rewrite !andb_true_iff in Hcat.
  destruct Hcat as [[[[[Hbrand _] _] _] _] _].
  simpl in Hbrand. unfold cell_eq in Hbrand.
  destruct (brand r) as [v|] eqn:Er; [|discriminate].
  apply (str_eqb_eq v (c :: b)) in Hbrand. simpl. rewrite Er. now subst.
Qed.

End AnySortingRoutineMore.

Lemma search_answer_size_witness :
  exists answer,
    api_search insertion_sort Sample.table Demo.two_toyotas = Return answer /\
    List.length answer
    = Nat.min (Z.to_nat 2)
        (List.length [Sample.camry; Sample.corolla; Sample.bare]).
Proof.
  apply (search_answer_size insertion_sort insertion_sort_perm
           Sample.table Demo.two_toyotas 2
           [Sample.camry; Sample.corolla; Sample.bare]); reflexivity.
Defined.

Lemma search_answer_cheapest_witness :
  api_search_rows insertion_sort Sample.table Demo.two_toyotas
  = Return [Sample.camry; Sample.corolla] /\
  forall a m pa pm,
    In a [Sample.camry; Sample.corolla] ->
    In m [Sample.camry; Sample.corolla; Sample.bare] ->
    price_usd a = Some pa -> price_usd m = Some pm -> (pm < pa)%Q ->
    In m [Sample.camry; Sample.corolla].
Proof.
  split; [reflexivity|].
  apply (search_answer_cheapest insertion_sort insertion_sort_perm
           insertion_sort_sorted Sample.table Demo.two_toyotas 2
           [Sample.camry; Sample.corolla; Sample.bare]
           [Sample.camry; Sample.corolla]); reflexivity.
Defined.

Lemma search_answer_brand_witness :
  api_search insertion_sort Sample.table Demo.brand_toyota
  = Return (map cols [Sample.camry; Sample.corolla; Sample.bare]) /\
  forall s, In s (map cols [Sample.camry; Sample.corolla; Sample.bare]) ->
    s_brand s = Some (lit "Toyota").
Proof.
  split; [reflexivity|].
  apply (search_answer_brand insertion_sort insertion_sort_perm
           Sample.table Demo.brand_toyota
           (map cols [Sample.camry; Sample.corolla; Sample.bare])).
  - discriminate.
  - reflexivity.
Defined.

(** ** The choices of the form *)

Lemma dropna_in {A : Type} (v : A) (column : list (option A)) :
  In v (dropna column) <-> In (Some v) column.
Proof.
  unfold dropna. rewrite in_flat_map. split.
  - intros [[w|] [Hc Hv]]; [|destruct Hv].
    destruct Hv as [<- | []]. exact Hc.
  - intros H. exists (Some v). split; [exact H | now left].
Qed.

Lemma existsb_str_eqb (v : str) (seen : list str) :
  existsb (str_eqb v) seen = true <-> In v seen.
Proof.
  rewrite existsb_exists. split.
  - intros [w [Hw E]]. apply str_eqb_eq in E. now subst.
  - intros H. exists v. split; [exact H | now apply str_eqb_eq].
Qed.

Lemma unique_from_in (values : list str) :
  forall seen x,
    In x (unique_from seen values) <-> In x values /\ ~ In x seen.
Proof.
  induction values as [|v values IH]; intros seen x; simpl; [tauto|].
  destruct (existsb (str_eqb v) seen) eqn:E.
  - apply existsb_str_eqb in E. rewrite IH. split.
    + intros [H1 H2]. auto.
    + intros [[<- | H1] H2]; [contradiction | auto].
  - assert (Hn : ~ In v seen)
      by (rewrite <- existsb_str_eqb, E; discriminate).
    simpl. rewrite IH. simpl. split.
    + intros [<- | [H1 H2]]; [auto | split; auto].
    + intros [[<- | H1] H2]; [now left|].
      destruct (list_eq_dec ascii_dec v x) as [<- | Hne]; [now left|].
      right. split; [exact H1|]. intros [H | H]; [congruence | contradiction].
Qed.

Lemma unique_from_nodup (values : list str) :
  forall seen, NoDup (unique_from seen values).
Proof.
  induction values as [|v values IH]; intros seen; simpl; [constructor|].
  destruct (existsb (str_eqb v) seen); [apply IH|].
  constructor; [|apply IH].
  rewrite unique_from_in. simpl. tauto.
Qed.

Lemma unique_in (values : list str) (x : str) :
  In x (unique values) <-> In x values.
Proof. unfold unique. rewrite unique_from_in. simpl. tauto. Qed.

Lemma str_leb_total (a b : str) : str_leb a b = false -> str_leb b a = true.
Proof.
  revert b. induction a as [|x a IH]; intros [|y b]; simpl; try discriminate;
    auto.
  destruct (code x <? code y)%N eqn:E1; [discriminate|].
  destruct (code x =? code y)%N eqn:E2.
  - apply N.eqb_eq in E2. rewrite E2, N.ltb_irrefl, N.eqb_refl. apply IH.
  - intros _. apply N.ltb_ge in E1. apply N.eqb_neq in E2.
    assert (H : (code y <? code x)%N = true) by (apply N.ltb_lt; lia).
    now rewrite H.
Qed.

Lemma str_leb_trans (a b c : str) :
  str_leb a b = true -> str_leb b c = true -> str_leb a c = true.
Proof.
  revert b c. induction a as [|x a IH]; intros [|y b] [|z c]; simpl; auto;
    try discriminate.
  destruct (code x <? code y)%N eqn:E1, (code y <? code z)%N eqn:E2;
    rewrite ?N.ltb_lt, ?N.ltb_ge in *.
  - intros _ _. assert (H : (code x <? code z)%N = true) by (apply N.ltb_lt; lia).
    now rewrite H.
  - destruct (code y =? code z)%N eqn:E3; [|discriminate].
    apply N.eqb_eq in E3. intros _ _.
    assert (H : (code x <? code z)%N = true) by (apply N.ltb_lt; lia).
    now rewrite H.
  - destruct (code x =? code y)%N eqn:E3; [|discriminate].
    apply N.eqb_eq in E3. intros _ _.
    assert (H : (code x <? code z)%N = true) by (apply N.ltb_lt; lia).
    now rewrite H.
  - destruct (code x =? code y)%N eqn:E3; [|discriminate].
    destruct (code y =? code z)%N eqn:E4; [|discriminate].
    apply N.eqb_eq in E3, E4. intros H1 H2.
    assert (H : (code x <? code z)%N = false) by (apply N.ltb_ge; lia).
    assert (H' : (code x =? code z)%N = true) by (apply N.eqb_eq; lia).
    rewrite H, H'. eapply IH; eauto.
Qed.

Lemma insert_sorted_perm (v : str) (l : list str) :
  Permutation (insert_sorted v l) (v :: l).
Proof.
  induction l as [|w l IH]; simpl; [reflexivity|].
  destruct (str_leb v w); [reflexivity|].
  rewrite IH. apply perm_swap.
Qed.

Lemma sorted_perm (l : list str) : Permutation (sorted l) l.
Proof.
  induction l as [|v l IH]; simpl; [constructor|].
  rewrite insert_sorted_perm. now constructor.
Qed.

Lemma insert_sorted_ascending (v : str) (l : list str) :
  StronglySorted str_le l -> StronglySorted str_le (insert_sorted v l).
Proof.
  induction 1 as [|w l Hl IH Hw]; simpl.
  - constructor; constructor.
  - destruct (str_leb v w) eqn:E.
    + constructor; [now constructor|]. constructor; [exact E|].
      rewrite Forall_forall in *. intros z Hz.
      eapply str_leb_trans; [exact E | now apply Hw].
    + constructor; [exact IH|].
      rewrite Forall_forall in *. intros z Hz.
      apply (Permutation_in _ (insert_sorted_perm v l)) in Hz.
      destruct Hz as [<- | Hz]; [now apply str_leb_total | now apply Hw].
Qed.

Lemma sorted_ascending (l : list str) : StronglySorted str_le (sorted l).
Proof.
  induction l as [|v l IH]; simpl; [constructor|].
  now apply insert_sorted_ascending.
Qed.

Lemma choices_in (col : row -> option str) (df : DataFrame) (v : str) :
  In v (choices col df) <-> exists r, In r df /\ col r = Some v.
Proof.
  unfold choices.
  split.
  - intros H. apply (Permutation_in _ (sorted_perm _)) in H.
    apply unique_in, dropna_in, in_map_iff in H.
    destruct H as [r [E Hr]]. eauto.
  - intros [r [Hr E]].
    apply (Permutation_in _ (Permutation_sym (sorted_perm _))).
    apply unique_in, dropna_in, in_map_iff. eauto.
Qed.

Lemma choices_nodup (col : row -> option str) (df : DataFrame) :
  NoDup (choices col df).
Proof.
  unfold choices.
  apply (Permutation_NoDup (Permutation_sym (sorted_perm _))).
  apply unique_from_nodup.
Qed.

(** A list of choices of the form (brands, models, body types, ...) holds
    every value that some record has in the column and nothing else, each
    value once, in ascending order. *)
Theorem choices_of_form (col : row -> option str) (df : DataFrame) :
  NoDup (choices col df) /\
  StronglySorted str_le (choices col df) /\
  forall v, In v (choices col df) <-> exists r, In r df /\ col r = Some v.
Proof.
  split; [apply choices_nodup|]. split; [apply sorted_ascending|].
  apply choices_in.
Qed.

Lemma brand_group (df : DataFrame) (b : str) (r : row) :
  In r (boolean_index df (map (fun r => cell_eq (brand r) b) df)) <->
  In r df /\ brand r = Some b.
Proof.
  rewrite boolean_index_map, filter_In. unfold cell_eq.
  destruct (brand r) as [v|]; split; intros [H1 H2]; split; auto;
    try discriminate.
  - apply str_eqb_eq in H2. now subst.
  - inversion H2. now apply str_eqb_eq.
Qed.

(** The models offered for a brand: the brands of the table, in ascending
    order, each with the models that some record of that brand has, each
    model once, in ascending order; all of them are among the models
    offered when no brand is chosen. *)
Theorem models_of_brands (df : DataFrame) :
  map fst (models_by_brand df) = choices brand df /\
  forall b ms, In (b, ms) (models_by_brand df) ->
    NoDup ms /\ StronglySorted str_le ms /\
    (forall m, In m ms <->
       exists r, In r df /\ brand r = Some b /\ model r = Some m) /\
    (forall m, In m ms -> In m (choices model df)).
Proof.
  unfold models_by_brand. split.
  - rewrite map_map. simpl. apply map_id.
  - intros b ms H. apply in_map_iff in H. destruct H as [b' [E _]].
    inversion E; subst b' ms. clear E.
    assert (Hm : forall m,
              In m (choices model
                      (boolean_index df (map (fun r => cell_eq (brand r) b) df)))
              <-> exists r, In r df /\ brand r = Some b /\ model r = Some m).
    { intros m. rewrite choices_in. split.
      - intros [r [Hr Em]]. apply brand_group in Hr. exists r. tauto.
      - intros [r [Hr [Eb Em]]]. exists r. split; [|exact Em].
        apply brand_group. auto. }
    split; [apply choices_nodup|]. split; [apply sorted_ascending|].
    split; [exact Hm|].
    intros m Hin. apply Hm in Hin. destruct Hin as [r [Hr [_ Em]]].
    apply choices_in. eauto.
Qed.

(** Every choice the form offers leads somewhere: picking a brand and one
    of the models offered for it, and nothing else, the filter returns at
    least one car, of that brand and model. *)
Theorem offered_choice_finds_a_car (df : DataFrame) (b m : str)
  (ms : list str) :
  In (b, ms) (models_by_brand df) ->
  In m ms ->
  exists kept r,
    apply_filters df (selection b m) = Return kept /\
    In r kept /\ brand r = Some b /\ model r = Some m.
Proof.
  intros Hb Hm. unfold models_by_brand in Hb.
  apply in_map_iff in Hb. destruct Hb as [b' [E _]].
  inversion E; subst b' ms. clear E.
  apply choices_in in Hm. destruct Hm as [r [Hr Em]].
  apply brand_group in Hr. destruct Hr as [Hr Eb].
  rewrite apply_filters_eq. simpl.
  eexists. exists r. split; [reflexivity|]. split; [|auto].
  apply filter_In. split; [exact Hr|].
  unfold categorical_ok, numeric_ok, equals_ok, cell_eq. simpl.
  rewrite Eb, Em.
  destruct b, m; simpl; rewrite ?Ascii.eqb_refl, ?(proj2 (str_eqb_eq _ _) eq_refl);
    reflexivity.
Qed.

Lemma offered_choice_finds_a_car_witness :
  exists kept r,
    apply_filters Demo.table (selection (lit "Kia") (lit "Rio")) = Return kept /\
    In r kept /\ brand r = Some (lit "Kia") /\ model r = Some (lit "Rio").
Proof.
  apply (offered_choice_finds_a_car Demo.table (lit "Kia") (lit "Rio")
           [lit "Ceed"; lit "Rio"]).
  - vm_compute. right. left. reflexivity.
  - simpl. auto.
Defined.

(** ** Statistics *)

Lemma firstn_nodup {A : Type} (n : nat) (l : list A) :
  NoDup l -> NoDup (firstn n l).
Proof.
  intros H. rewrite <- (firstn_skipn n l) in H.
  now apply NoDup_app_remove_r in H.
Qed.

Lemma count_of_map (b : str) (f : row -> str) (df : DataFrame) :
  count_of b (map f df) = List.length (filter (fun r => str_eqb b (f r)) df).
Proof.
  unfold count_of. induction df as [|r df IH]; simpl; [reflexivity|].
  destruct (str_eqb b (f r)); simpl; now rewrite IH.
Qed.

Lemma count_of_positive (b : str) (values : list str) :
  In b values <-> (1 <= count_of b values)%nat.
Proof.
  unfold count_of. induction values as [|v values IH]; simpl.
  - split; [tauto | lia].
  - destruct (str_eqb b v) eqn:E; simpl.
    + apply str_eqb_eq in E. split; [lia | auto].
    + rewrite <- IH. split; [|tauto].
      intros [H | H]; [|exact H]. subst v.
      rewrite (proj2 (str_eqb_eq b b) eq_refl) in E. discriminate.
Qed.

Lemma dropna_none {A : Type} (column : list (option A)) :
  (forall c, In c column -> c = None) -> dropna column = [].
Proof.
  induction column as [|c column IH]; intros H; [reflexivity|].
  unfold dropna. simpl. rewrite (H c (or_introl eq_refl)). simpl.
  apply IH. intros c' Hc'. apply H. now right.
Qed.

Section AnyStatistics.

Variables rounded_mean rounded_median : list Q -> Z.
Variable sort_counts : list (str * nat) -> list (str * nat).
Hypothesis sort_counts_perm : forall l, Permutation (sort_counts l) l.
Hypothesis sort_counts_sorted : forall l, StronglySorted count_ge (sort_counts l).

(** Without a single price in the table (an empty table included), the mean
    and the median price are reported as 0, and the mean and the median of
    no numbers are never asked for; the number of cars is that of all
    records. *)
Theorem stats_without_prices (df : DataFrame) :
  (forall r, In r df -> price_usd r = None) ->
  mean_price (basic_stats rounded_mean rounded_median sort_counts df) = 0 /\
  median_price (basic_stats rounded_mean rounded_median sort_counts df) = 0 /\
  total_cars (basic_stats rounded_mean rounded_median sort_counts df)
  = Z.of_nat (List.length df).
Proof.
  intros H. unfold basic_stats. cbv zeta. cbn [mean_price median_price total_cars].
  rewrite dropna_none; [auto|].
  intros c Hc. apply in_map_iff in Hc. destruct Hc as [r [<- Hr]]. now apply H.
Qed.

(** The popular brands: at most five, no brand twice, in descending order
    of their counts; the count shown for a brand is the number of its
    records, at least one; and a brand of the table that is not shown has
    no more records than any of the five that are. *)
Theorem popular_brands_are_the_top_five (df : DataFrame) :
  (List.length
     (popular_brands (basic_stats rounded_mean rounded_median sort_counts df))
   <= 5)%nat /\
  NoDup
    (map fst
       (popular_brands (basic_stats rounded_mean rounded_median sort_counts df))) /\
  StronglySorted count_ge
    (popular_brands (basic_stats rounded_mean rounded_median sort_counts df)) /\
  (forall b n,
     In (b, n)
       (popular_brands (basic_stats rounded_mean rounded_median sort_counts df)) ->
     (1 <= n)%nat /\ n = brand_count df b) /\
  (forall b,
     (1 <= brand_count df b)%nat ->
     ~ In b
         (map fst
            (popular_brands
               (basic_stats rounded_mean rounded_median sort_counts df))) ->
     List.length
       (popular_brands (basic_stats rounded_mean rounded_median sort_counts df))
     = 5%nat /\
     forall b' n',
       In (b', n')
         (popular_brands
            (basic_stats rounded_mean rounded_median sort_counts df)) ->
       (brand_count df b <= n')%nat).
Proof.
  unfold basic_stats. cbv zeta. cbn [popular_brands]. unfold value_counts.
  set (name := fun r => fillna_str (lit "Unknown") (brand r)).
  set (values := map name df).
  set (V := map (fun v => (v, count_of v values)) (unique values)).
  set (S := sort_counts V).
  assert (HV : forall b n, In (b, n) V <->
                 In b values /\ n = count_of b values).
  { intros b n. unfold V. rewrite in_map_iff. split.
    - intros [v [E Hv]]. inversion E; subst. split; [|reflexivity].
      now apply unique_in.
    - intros [Hb ->]. exists b. split; [reflexivity | now apply unique_in]. }
  assert (HS : forall x, In x S <-> In x V).
  { intros x. split; apply Permutation_in;
      [apply sort_counts_perm | apply Permutation_sym, sort_counts_perm]. }
  assert (Hcount : forall b, count_of b values = brand_count df b).
  { intros b. unfold values. apply count_of_map. }
  split; [apply firstn_le_length|]. split; [|split; [|split]].
  - rewrite <- firstn_map. apply firstn_nodup.
    apply (Permutation_NoDup
             (Permutation_sym (Permutation_map fst (sort_counts_perm V)))).
    unfold V. rewrite map_map. simpl. rewrite map_id.
    apply unique_from_nodup.
  - apply firstn_sorted, sort_counts_sorted.
  - intros b n Hin. apply firstn_subset, HS, HV in Hin.
    destruct Hin as [Hb ->]. split; [now apply count_of_positive|].
    apply Hcount.
  - intros b Hb Hout.
    assert (HbV : In (b, count_of b values) S).
    { apply HS, HV. split; [|reflexivity].
      apply count_of_positive. now rewrite Hcount. }
    rewrite <- (firstn_skipn 5 S) in HbV. apply in_app_iff in HbV.
    destruct HbV as [HbV | HbV].
    { destruct Hout. apply in_map_iff. exists (b, count_of b values). auto. }
    split.
    + rewrite length_firstn.
      destruct (Nat.le_gt_cases (List.length S) 5) as [Hle | Hgt]; [|lia].
      rewrite (skipn_all2 S Hle) in HbV. destruct HbV.
    + intros b' n' Hin.
      pose proof (sort_counts_sorted V) as Hs. fold S in Hs.
      rewrite <- (firstn_skipn 5 S) in Hs.
      pose proof (sorted_app_cross _ _ _ Hs _ _ Hin HbV) as Hge.
      unfold count_ge in Hge. simpl in Hge. now rewrite <- Hcount.
Qed.

End AnyStatistics.

Lemma insert_by_count_perm (x : str * nat) (l : list (str * nat)) :
  Permutation (insert_by_count x l) (x :: l).
Proof.
  induction l as [|y l IH]; simpl; [reflexivity|].
  destruct (snd y <=? snd x)%nat; [reflexivity|].
  rewrite IH. apply perm_swap.
Qed.

Lemma sort_by_count_perm (l : list (str * nat)) :
  Permutation (sort_by_count l) l.
Proof.
  induction l as [|x l IH]; simpl; [constructor|].
  rewrite insert_by_count_perm. now constructor.
Qed.

Lemma insert_by_count_sorted (x : str * nat) (l : list (str * nat)) :
  StronglySorted count_ge l -> StronglySorted count_ge (insert_by_count x l).
Proof.
  induction 1 as [|y l Hl IH Hy]; simpl.
  - constructor; constructor.
  - destruct (snd y <=? snd x)%nat eqn:E.
    + apply Nat.leb_le in E. constructor; [now constructor|].
      constructor; [exact E|].
      rewrite Forall_forall in *. intros z Hz.
      specialize (Hy z Hz). unfold count_ge in *. lia.
    + apply Nat.leb_gt in E. constructor; [exact IH|].
      rewrite Forall_forall in *. intros z Hz.
      apply (Permutation_in _ (insert_by_count_perm x l)) in Hz.
      destruct Hz as [<- | Hz]; [unfold count_ge; lia | now apply Hy].
Qed.

Lemma sort_by_count_sorted (l : list (str * nat)) :
  StronglySorted count_ge (sort_by_count l).
Proof.
  induction l as [|x l IH]; simpl; [constructor|].
  now apply insert_by_count_sorted.
Qed.

Lemma stats_without_prices_witness :
  mean_price
    (basic_stats Demo.no_rounding Demo.no_rounding sort_by_count
       [Sample.bare; Sample.ceed]) = 0 /\
  median_price
    (basic_stats Demo.no_rounding Demo.no_rounding sort_by_count
       [Sample.bare; Sample.ceed]) = 0 /\
  total_cars
    (basic_stats Demo.no_rounding Demo.no_rounding sort_by_count
       [Sample.bare; Sample.ceed]) = Z.of_nat 2.
Proof.
  apply (stats_without_prices Demo.no_rounding Demo.no_rounding sort_by_count
           [Sample.bare; Sample.ceed]).
  intros r [<- | [<- | []]]; reflexivity.
Defined.

Lemma popular_brands_are_the_top_five_witness :
  popular_brands
    (basic_stats Demo.no_rounding Demo.no_rounding sort_by_count Demo.table)
  = [(lit "Toyota", 3%nat); (lit "Kia", 2%nat); (lit "Unknown", 1%nat);
     (lit "Honda", 1%nat)] /\
  NoDup
    (map fst
       (popular_brands
          (basic_stats Demo.no_rounding Demo.no_rounding sort_by_count
             Demo.table))).
Proof.
  split; [reflexivity|].
  apply (popular_brands_are_the_top_five Demo.no_rounding Demo.no_rounding
           sort_by_count sort_by_count_perm sort_by_count_sorted Demo.table).
Defined.

(** ** The box plot of prices by brand *)

Lemma dropna_length {A B : Type} (f : A -> option B) (l : list A) :
  (forall x, In x l -> f x <> None) ->
  List.length (dropna (map f l)) = List.length l.
Proof.
  induction l as [|x l IH]; intros H; [reflexivity|].
  unfold dropna in *. simpl.
  destruct (f x) as [v|] eqn:E; [|destruct (H x (or_introl eq_refl) E)].
  simpl. f_equal. apply IH. intros y Hy. apply H. now right.
Qed.

(** In a list of keys without repetition, a key that occurs is met once. *)
Lemma one_key_matches (keys : list str) (cell : option str) (b : str) :
  NoDup keys -> cell = Some b -> In b keys ->
  list_sum (map (fun k => if cell_eq cell k then 1%nat else 0%nat) keys) = 1%nat.
Proof.
  intros Hnd -> . induction Hnd as [|k keys Hk Hnd IH]; simpl; [tauto|].
  intros [-> | Hin].
  - rewrite (proj2 (str_eqb_eq b b) eq_refl).
    assert (H0 : list_sum (map (fun k => if str_eqb b k then 1%nat else 0%nat) keys)
                 = 0%nat).
    { clear IH Hnd. induction keys as [|k keys IH]; simpl; [reflexivity|].
      destruct (str_eqb b k) eqn:E.
      - apply str_eqb_eq in E. subst k. destruct Hk. now left.
      - apply IH. intros H. apply Hk. now right. }
    simpl in H0. rewrite H0. reflexivity.
  - destruct (str_eqb b k) eqn:E.
    + apply str_eqb_eq in E. subst k. contradiction.
    + simpl. now apply IH.
Qed.

(** Records grouped by brand: when every record has one of the brands, the
    groups hold as many records as there are. *)
Lemma groups_cover (keys : list str) (l : DataFrame) :
  NoDup keys ->
  (forall r, In r l -> exists b, brand r = Some b /\ In b keys) ->
  list_sum
    (map (fun k => List.length (filter (fun r => cell_eq (brand r) k) l)) keys)
  = List.length l.
Proof.
  intros Hnd. induction l as [|r l IH]; intros Hall.
  - simpl. clear. induction keys as [|k keys IHk]; simpl; [reflexivity|].
    exact IHk.
  - destruct (Hall r (or_introl eq_refl)) as [b [Eb Hb]].
    assert (Hsplit :
      list_sum
        (map (fun k =>
                List.length (filter (fun r => cell_eq (brand r) k) (r :: l)))
           keys)
      = (list_sum
           (map (fun k => if cell_eq (brand r) k then 1%nat else 0%nat) keys)
         + list_sum
             (map (fun k =>
                     List.length (filter (fun r => cell_eq (brand r) k) l))
                keys))%nat).
    { clear. induction keys as [|k keys IHk]; simpl; [reflexivity|].
      simpl in IHk. rewrite IHk.
      destruct (cell_eq (brand r) k); simpl; lia. }
    rewrite Hsplit, (one_key_matches keys (brand r) b Hnd Eb Hb), IH.
    + reflexivity.
    + intros r' Hr'. apply Hall. now right.
Qed.

Lemma boxes_of_brands (data : DataFrame) :
  (forall r, In r data -> brand r <> None /\ price_usd r <> None) ->
  forall labels prices,
    labels = sorted (unique (dropna (map brand data))) ->
    prices =
      map (fun b =>
             dropna (map price_usd
                       (boolean_index data
                          (map (fun r => cell_eq (brand r) b) data))))
          labels ->
    List.length labels = List.length prices /\
    NoDup labels /\ StronglySorted str_le labels /\
    (forall v, In v labels <-> exists r, In r data /\ brand r = Some v) /\
    (forall box, In box prices -> box <> []) /\
    List.length (List.concat prices) = List.length data.
Proof.
  intros Hall labels prices Hl Hp.
  assert (Hin : forall v, In v labels <-> exists r, In r data /\ brand r = Some v).
  { intros v. rewrite Hl. apply (choices_in brand data v). }
  assert (Hnd : NoDup labels) by (rewrite Hl; apply (choices_nodup brand data)).
  split; [rewrite Hp; now rewrite length_map|].
  split; [exact Hnd|].
  split; [rewrite Hl; apply sorted_ascending|].
  split; [exact Hin|]. split.
  - intros box Hbox. rewrite Hp in Hbox. apply in_map_iff in Hbox.
    destruct Hbox as [b [<- Hb]]. apply Hin in Hb.
    destruct Hb as [r [Hr Eb]].
    destruct (price_usd r) as [p|] eqn:Ep;
      [|destruct (proj2 (Hall r Hr) Ep)].
    assert (Hp' : In p (dropna (map price_usd
                         (boolean_index data
                            (map (fun r => cell_eq (brand r) b) data))))).
    { apply dropna_in, in_map_iff. exists r. split; [exact Ep|].
      apply brand_group. auto. }
    intros Hnil. rewrite Hnil in Hp'. destruct Hp'.
  - rewrite length_concat, Hp, map_map.
    rewrite (map_ext _
               (fun k => List.length (filter (fun r => cell_eq (brand r) k) data))).
    + apply groups_cover; [exact Hnd|].
      intros r Hr. destruct (brand r) as [b|] eqn:Eb;
        [|destruct (proj1 (Hall r Hr) Eb)].
      exists b. split; [reflexivity|]. apply Hin. eauto.
    + intros b. rewrite boolean_index_map. apply dropna_length.
      intros r Hr. apply filter_In in Hr. apply Hall. tauto.
Qed.

(** What the box plot draws.  The placeholder is drawn exactly when no
    record has both a brand and a price.  Otherwise there is one box for
    every brand that has a priced record, in ascending order of the brands
    and no brand twice; no box is empty; and the boxes hold together as
    many prices as there are records with a brand and a price: each such
    record is drawn once. *)
Theorem boxplot_draws_every_priced_car (df : DataFrame) :
  (price_distribution_by_brand df = NoData <->
   forall r, In r df -> brand r = None \/ price_usd r = None) /\
  (forall labels prices,
     price_distribution_by_brand df = Boxplot labels prices ->
     List.length labels = List.length prices /\
     NoDup labels /\ StronglySorted str_le labels /\
     (forall v, In v labels <->
        exists r, In r df /\ brand r = Some v /\ price_usd r <> None) /\
     (forall box, In box prices -> box <> []) /\
     List.length (List.concat prices)
     = List.length
         (filter (fun r => has_value (brand r) && has_value (price_usd r)) df)).
Proof.
  unfold price_distribution_by_brand. cbv zeta.
  set (both := fun r => has_value (brand r) && has_value (price_usd r)).
  assert (Hboth : forall r, both r = true <->
                    brand r <> None /\ price_usd r <> None).
  { intros r. unfold both. rewrite andb_true_iff.
    destruct (brand r), (price_usd r); simpl; split; intros [H1 H2];
      try discriminate; try congruence; split; congruence. }
  assert (Hdata : forall r, In r (filter both df) <->
                    In r df /\ brand r <> None /\ price_usd r <> None).
  { intros r. rewrite filter_In, Hboth. tauto. }
  destruct (filter both df) as [|r0 data] eqn:E.
  - split; [|intros labels prices H; discriminate].
    split; [|reflexivity]. intros _ r Hr.
    destruct (brand r) eqn:Eb; [|now left].
    destruct (price_usd r) eqn:Ep; [|now right].
    exfalso. apply (proj2 (Hdata r)). split; [exact Hr|].
    rewrite Eb, Ep. split; discriminate.
  - split.
    + split; [discriminate|]. intros H. exfalso.
      assert (H0 : In r0 (r0 :: data)) by now left.
      apply Hdata in H0. destruct H0 as [Hr [Hb Hp]].
      destruct (H r0 Hr); contradiction.
    + intros labels prices H. inversion H as [[Hl Hp]]. clear H.
      destruct (boxes_of_brands (r0 :: data)
                  (fun r Hr => proj2 (proj1 (Hdata r) Hr))
                  _ _ eq_refl eq_refl)
        as [H1 [H2 [H3 [H4 [H5 H6]]]]].
      split; [exact H1|]. split; [exact H2|]. split; [exact H3|].
      split; [|split; [exact H5 | exact H6]].
      intros v. rewrite H4. split.
      * intros [r [Hr Eb]]. apply Hdata in Hr. exists r. tauto.
      * intros [r [Hr [Eb Hp']]]. exists r. split; [|exact Eb].
        apply Hdata. rewrite Eb. repeat split; auto. discriminate.
Qed.

(** * The ids of the table *)

(** ** The cast *)

Lemma truncate_integer_part (v : Q) : integer_part v (truncate v).
Proof.
  destruct v as [n d]. unfold integer_part, truncate, Qle, Qlt.
  cbn [Qnum Qden inject_Z].
  pose proof (Z.quot_rem' n (Zpos d)) as Hqr.
  split; intros Hsign.
  - assert (Hn : 0 <= n) by lia.
    pose proof (Z.rem_bound_pos n (Zpos d) Hn ltac:(lia)) as Hrem.
    split; nia.
  - assert (Hn : 0 <= - n) by lia.
    pose proof (Z.rem_bound_pos (- n) (Zpos d) Hn ltac:(lia)) as Hrem.
    rewrite Z.rem_opp_l' in Hrem.
    split; nia.
Qed.

Lemma integer_part_whole (k j : Z) : integer_part (inject_Z k) j -> j = k.
Proof.
  unfold integer_part, Qle, Qlt. cbn [Qnum Qden inject_Z].
  intros [Hpos Hneg].
  destruct (Z_le_gt_dec 0 k); [destruct Hpos | destruct Hneg]; lia.
Qed.

Lemma truncate_whole (k : Z) : truncate (inject_Z k) = k.
Proof. unfold truncate. simpl. apply Z.quot_1_r. Qed.

Lemma traverse_return {A B : Type} (f : A -> result B) (l : list A)
  (out : list B) :
  traverse f l = Return out -> Forall2 (fun x y => f x = Return y) l out.
Proof.
  revert out. induction l as [|x l IH]; simpl; intros out H.
  - inversion H. constructor.
  - destruct (f x) as [y| |] eqn:E; simpl in H; try discriminate.
    destruct (traverse f l) as [ys| |]; simpl in H; try discriminate.
    inversion H. constructor; [exact E | now apply IH].
Qed.

(** Line 31 on a column of the file: it raises when a cell is infinite,
    and what it returns is, cell by cell, an id of the cell. *)
Lemma astype_int_infinite (cells : list csv_cell) :
  In Infinite cells -> astype_int (map coerce_id cells) = Raise ValueError.
Proof.
  intros Hin. unfold astype_int.
  assert (H : forallb is_finite (map coerce_id cells) = false).
  { induction cells as [|c cells IH]; [destruct Hin|].
    destruct Hin as [-> | Hin]; [reflexivity|].
    simpl. rewrite (IH Hin). apply andb_false_r. }
  now rewrite H.
Qed.

Lemma astype_int_return (cells : list csv_cell) (ids : list Z) :
  astype_int (map coerce_id cells) = Return ids ->
  Forall2 id_of_cell cells ids.
Proof.
  unfold astype_int.
  destruct (forallb is_finite (map coerce_id cells)); [|discriminate].
  intros H. apply traverse_return in H.
  revert ids H. induction cells as [|c cells IH]; intros ids H;
    inversion H as [|x y l l' Hc Hrest]; subst; constructor.
  - destruct c as [v| |]; simpl in Hc.
    + destruct ((int64_min <=? truncate v) && (truncate v <=? int64_max))
        eqn:E; [|discriminate].
      inversion Hc; subst y. apply andb_true_iff in E.
      rewrite !Z.leb_le in E. split; [apply truncate_integer_part | exact E].
    + discriminate.
    + unfold truncate in Hc. simpl in Hc. now inversion Hc.
  - now apply IH.
Qed.

(** ** The lines *)

Lemma load_lines_return (ls : list csv_line) :
  forall ids table,
    List.length ids = List.length ls ->
    load_lines ids ls = Return table ->
    map id table = ids /\ List.length table = List.length ls.
Proof.
  induction ls as [|l ls IH]; intros [|i ids] table Hlen H;
    simpl in Hlen; try discriminate.
  - inversion H. auto.
  - cbn [load_lines] in H.
    destruct (load_line i l) as [r| |] eqn:Er; cbn [bind] in H;
      try discriminate.
    destruct (load_lines ids ls) as [rest| |] eqn:Erest; cbn [bind] in H;
      try discriminate.
    inversion H; subst table.
    destruct (IH ids rest ltac:(lia) Erest) as [Hids Hl].
    assert (Hr : id r = i).
    { unfold load_line in Er.
      destruct (numeric_cell _) as [y| |]; cbn [bind] in Er; try discriminate.
      destruct (numeric_cell _) as [h| |]; cbn [bind] in Er; try discriminate.
      destruct (numeric_cell _) as [pr| |]; cbn [bind] in Er; try discriminate.
      now inversion Er. }
    simpl. now rewrite Hr, Hids, Hl.
Qed.

Lemma load_line_finite (i : Z) (l : csv_line) :
  finite_line l = true -> exists r, load_line i l = Return r.
Proof.
  unfold finite_line, load_line. rewrite !andb_true_iff. intros [[Hy Hh] Hp].
  destruct (csv_year l) as [y| |]; try discriminate;
    destruct (csv_horsepower l) as [h| |]; try discriminate;
    destruct (csv_price_usd l) as [pr| |]; try discriminate;
    cbn [to_numeric numeric_cell bind]; eauto.
Qed.

Lemma load_lines_finite (ls : list csv_line) :
  forallb finite_line ls = true ->
  forall ids, exists table, load_lines ids ls = Return table.
Proof.
  induction ls as [|l ls IH]; intros Hf ids.
  - destruct ids; simpl; eauto.
  - cbn [forallb] in Hf. apply andb_true_iff in Hf. destruct Hf as [Hl Hls].
    destruct ids as [|i ids]; [simpl; eauto|].
    cbn [load_lines].
    destruct (load_line_finite i l Hl) as [r ->].
    destruct (IH Hls ids) as [rest ->]. cbn [bind]. eauto.
Qed.

Lemma ids_of_length (f : csv_file) (ids : list Z) :
  ids_of f = Return ids -> List.length ids = List.length (lines f).
Proof.
  unfold ids_of. destruct (id_cells f) as [cells|] eqn:Ec.
  - intros H. apply astype_int_return, Forall2_length in H.
    rewrite <- H. unfold id_cells in Ec.
    destruct (id_source_of f); inversion Ec; apply length_map.
  - intros H. inversion H. now rewrite length_map, length_seq.
Qed.

Lemma positions_nodup (n : nat) :
  forall k, NoDup (map Z.of_nat (seq k n)).
Proof.
  induction n as [|n IH]; intros k; simpl; constructor; [|apply IH].
  rewrite in_map_iff. intros [j [Hj Hin]].
  apply in_seq in Hin. lia.
Qed.

(** Two positions with the same value: the list holds a value twice. *)
Lemma repeated_value (l : list Z) (i j : nat) (x : Z) :
  i <> j -> nth_error l i = Some x -> nth_error l j = Some x -> ~ NoDup l.
Proof.
  intros Hij Hi Hj Hnd.
  apply Hij. apply (proj1 (NoDup_nth_error l) Hnd).
  - apply nth_error_Some. congruence.
  - congruence.
Qed.

Lemma Forall2_nth {A B : Type} (R : A -> B -> Prop) (l : list A) (l' : list B) :
  Forall2 R l l' ->
  forall i x, nth_error l i = Some x ->
    exists y, nth_error l' i = Some y /\ R x y.
Proof.
  induction 1 as [|a b l l' Hab _ IH]; intros [|i] x Hx; simpl in *;
    try discriminate.
  - inversion Hx; subst. eauto.
  - now apply IH.
Qed.

(** ** The handlers read the table and leave it as it is *)

Lemma api_search_rows_subset (argsort : list (Q * row) -> list (Q * row))
  (df : DataFrame) (args : search_request) (rows : DataFrame) (r : row) :
  (forall l, Permutation (argsort l) l) ->
  api_search_rows argsort df args = Return rows -> In r rows -> In r df.
Proof.
  intros Hperm H Hr. unfold api_search_rows in H. cbv zeta in H.
  destruct (search_limit (arg_limit args)) as [n| |]; cbn [bind] in H;
    try discriminate.
  destruct ((Z.of_nat (List.length (strip (or_empty (arg_q args)))) <? 2) &&
            negb (truthy (strip (or_empty (arg_brand args))))).
  - inversion H; subst rows. destruct Hr.
  - destruct (apply_filters df _) as [matching| |] eqn:Em; cbn [bind] in H;
      try discriminate.
    inversion H; subst rows.
    apply firstn_subset in Hr.
    apply (Permutation_in _ (sort_values_perm argsort Hperm matching)) in Hr.
    apply apply_filters_return in Em. destruct Em as [_ [ps [_ ->]]].
    apply filter_In in Hr. tauto.
Qed.

Lemma shown_in (argsort : list (Q * row) -> list (Q * row))
  (df : DataFrame) (r : row) :
  (forall l, Permutation (argsort l) l) ->
  shown argsort df r -> In r df.
Proof.
  intros Hperm [a cars Hc Hr | ids Hr | car_id s p H | car_id car s p H Hr
               | car_id car s p H Hr | args rows H Hr].
  - unfold filtered_cars in Hc.
    apply apply_filters_return in Hc. destruct Hc as [_ [ps [_ ->]]].
    apply filter_In in Hr. tauto.
  - rewrite favorites_eq in Hr. apply filter_In in Hr. tauto.
  - apply (reference_in df car_id). unfold reference. now rewrite H.
  - rewrite recommend_eq in H.
    destruct (filter (fun r => id r =? car_id) df); [discriminate|].
    inversion H; subst. apply filter_In in Hr. tauto.
  - rewrite recommend_eq in H.
    destruct (filter (fun r => id r =? car_id) df); [discriminate|].
    inversion H; subst. apply filter_In in Hr. tauto.
  - eapply api_search_rows_subset; eauto.
Qed.

(** ** The claim *)

Example load_positions :
  option_map (map id)
    (match load Sample.file_no_ids with Return t => Some t | _ => None end)
  = Some [0; 1].
Proof. reflexivity. Qed.

Example load_id_column :
  option_map (map id)
    (match load Sample.file_ids with Return t => Some t | _ => None end)
  = Some [7; 9].
Proof. reflexivity. Qed.

Example load_infinite_id : load Sample.file_infinite_id = Raise ValueError.
Proof. reflexivity. Qed.


